(** * msaexp.resample_numba: resampling kernels and IGM transmission

    A shallow embedding of [src/msaexp/resample_numba.py] and the proofs of
    the properties its specification states.

    Modelling choices.
    - Numbers.  The kernels work on float64 arrays and are compiled with
      [fastmath=True], which lets the compiler treat float arithmetic as
      real arithmetic; the embedding computes over the real numbers [R],
      operation for operation and in the order of the source, so rounding,
      overflow, NaN and division by zero are outside the model.
      Comparisons are the boolean tests [a <? b] etc. decided by the order
      of [R].  A float exponent ([a ** 1.2]) is [Rpower], which agrees with
      the C [pow] on positive bases; an integer exponent ([a ** 2]) is the
      iterated product [a ^ 2].
      The statements about [compute_igm] that bound its result are made
      for positive wavelengths, where [Rpower] is the power of the source,
      and bound the exponential from below by zero, or by [exp(-700)] under
      an explicit bound on its argument: the real exponential is positive
      everywhere, the float one is zero beyond an argument of about -745.
    - Arrays are lists.  Indices are Python integers ([Z]); a negative index
      wraps around once, as in numpy.
    - Indexing.  A subscript that falls outside the array is reported as
      [Err (IndexError i len)]: the interpreter raises there, the compiled
      kernel (no bounds checks) has undefined behaviour.  The one exception
      is the pair of [while] guards of the resampler, whose [&] evaluates
      both operands: they read through [peek], which yields an unspecified
      value ([stray]) outside the array, the way the compiled kernel does.
    - Library functions that are not part of the repository ([math.erf],
      [np.interp]) are fields of the class [Runtime]. *)

From Stdlib Require Import Reals Lra Lia ZArith List Bool.
From Equations Require Import Equations.
From Equations.Prop Require Import Logic.
Import ListNotations.

Set Implicit Arguments.
Open Scope R_scope.

(** ** Results of fallible array code *)

Inductive error : Type :=
| IndexError (i : Z) (len : nat)
| BroadcastError (n m : nat).

Inductive res (A : Type) : Type :=
| Ok (a : A)
| Err (e : error).

Arguments Ok {A} a.
Arguments Err {A} e.

Definition bind {A B : Type} (m : res A) (k : A -> res B) : res B :=
  match m with
  | Ok a => k a
  | Err e => Err e
  end.

Notation "x <- m ;; k" := (bind m (fun x => k))
  (at level 61, m at next level, right associativity).

(** ** Library functions taken as given *)

Class Runtime : Type := {
  (** [math.erf] *)
  erf : R -> R;
  (** [np.interp(x, xp, fp)] at a scalar [x] *)
  np_interp : R -> list R -> list R -> R;
  (** what an unchecked read finds at offset [k] outside an array *)
  stray : Z -> R
}.

(** ** The numpy operations the kernels use *)

Module Np.

Definition ltb (a b : R) : bool := if Rlt_dec a b then true else false.
Definition leb (a b : R) : bool := if Rle_dec a b then true else false.
Definition gtb (a b : R) : bool := ltb b a.
Definition geb (a b : R) : bool := leb b a.

(** A scalar or a one-dimensional array argument. *)
Inductive arg : Type :=
| Scalar (r : R)
| Array (l : list R).

Definition len (x : list R) : Z := Z.of_nat (length x).

Definition zeros_like (x : list R) : list R := map (fun _ => 0) x.
Definition ones_like (x : list R) : list R := map (fun _ => 1) x.

(** [range(a, b)] *)
Definition range (a b : Z) : list Z :=
  map (fun k => a + Z.of_nat k)%Z (seq 0 (Z.to_nat (b - a))).

(** Position of subscript [i] in an array of length [n]. *)
Definition wrap (n : nat) (i : Z) : Z :=
  if (i <? 0)%Z then (i + Z.of_nat n)%Z else i.

Definition inside (n : nat) (i : Z) : bool :=
  (0 <=? wrap n i)%Z && (wrap n i <? Z.of_nat n)%Z.

(** [x[i]] *)
Definition getitem (x : list R) (i : Z) : res R :=
  if inside (length x) i
  then Ok (nth (Z.to_nat (wrap (length x) i)) x 0)
  else Err (IndexError i (length x)).

Fixpoint update (x : list R) (k : nat) (v : R) : list R :=
  match x, k with
  | [], _ => []
  | _ :: r, O => v :: r
  | a :: r, S k' => a :: update r k' v
  end.

(** [x[i] = v] *)
Definition setitem (x : list R) (i : Z) (v : R) : res (list R) :=
  if inside (length x) i
  then Ok (update x (Z.to_nat (wrap (length x) i)) v)
  else Err (IndexError i (length x)).

(** The read of the compiled kernel: no bounds check. *)
Definition peek {rt : Runtime} (x : list R) (i : Z) : R :=
  if inside (length x) i
  then nth (Z.to_nat (wrap (length x) i)) x 0
  else stray (wrap (length x) i).

(** A bound of a slice, clipped to the array. *)
Definition clip (n : nat) (i : Z) : Z :=
  if (i <? 0)%Z then Z.max 0 (i + Z.of_nat n) else Z.min i (Z.of_nat n).

Definition bound (n : nat) (dflt : Z) (b : option Z) : Z :=
  match b with
  | Some i => clip n i
  | None => dflt
  end.

(** [x[a:b]]; a missing bound is [None]. *)
Definition slice (x : list R) (a b : option Z) : list R :=
  let s := bound (length x) 0%Z a in
  let e := bound (length x) (len x) b in
  firstn (Z.to_nat (e - s)) (skipn (Z.to_nat s) x).

(** Elementwise [f] on two arrays, with numpy's broadcasting of a
    one-element array. *)
Definition broadcast2 (f : R -> R -> R) (a b : list R) : res (list R) :=
  if Nat.eqb (length a) (length b) then Ok (map (fun p => f (fst p) (snd p)) (combine a b))
  else match a, b with
       | [a0], _ => Ok (map (fun v => f a0 v) b)
       | _, [b0] => Ok (map (fun u => f u b0) a)
       | _, _ => Err (BroadcastError (length a) (length b))
       end.

(** [a * v] for a scalar or an array [a] and an array [v]. *)
Definition times (a : arg) (v : list R) : res (list R) :=
  match a with
  | Scalar s => Ok (map (fun u => s * u) v)
  | Array l => broadcast2 Rmult l v
  end.

(** [s * a] for a scalar [s]. *)
Definition scale (s : R) (a : arg) : arg :=
  match a with
  | Scalar r => Scalar (s * r)
  | Array l => Array (map (fun u => s * u) l)
  end.

(** [x[a:b] = v] *)
Definition setslice (x : list R) (a b : option Z) (v : list R) : res (list R) :=
  let s := bound (length x) 0%Z a in
  let e := bound (length x) (len x) b in
  let n := Z.to_nat (e - s) in
  if Nat.eqb (length v) n
  then Ok (firstn (Z.to_nat s) x ++ v ++ skipn (Z.to_nat s + n) x)
  else match v with
       | [v0] => Ok (firstn (Z.to_nat s) x ++ repeat v0 n ++ skipn (Z.to_nat s + n) x)
       | _ => Err (BroadcastError n (length v))
       end.

(** [np.trapz(y, x)] on arrays of one length: the sum of
    [(x[k+1] - x[k]) * (y[k+1] + y[k]) / 2]. *)
Fixpoint trapz (y x : list R) : R :=
  match y, x with
  | y0 :: ys, x0 :: xs =>
      match ys, xs with
      | y1 :: _, x1 :: _ => (x1 - x0) * (y1 + y0) / 2.0 + trapz ys xs
      | _, _ => 0
      end
  | _, _ => 0
  end.

(** A [for] loop whose body may fail. *)
Fixpoint for_each {S : Type} (idx : list Z) (body : Z -> S -> res S) (s : S) : res S :=
  match idx with
  | [] => Ok s
  | i :: rest => s' <- body i s ;; for_each rest body s'
  end.

End Np.

Notation "a <? b" := (Np.ltb a b) : R_scope.
Notation "a <=? b" := (Np.leb a b) : R_scope.
Notation "a >? b" := (Np.gtb a b) : R_scope.
Notation "a >=? b" := (Np.geb a b) : R_scope.
Notation "x .[ i ]" := (Np.getitem x i) (at level 1, format "x .[ i ]").

(** ** [pixel_integrated_gaussian_numba] *)

Section PixelIntegratedGaussian.

Context {rt : Runtime}.

(** The pixel widths when [dx is None] (source lines 196-199). *)
Definition gradient_widths (x : list R) : res (list R) :=
  let xdx := Np.ones_like x in
  d <- Np.broadcast2 Rminus (Np.slice x (Some 2%Z) None) (Np.slice x None (Some (-2)%Z)) ;;
  xdx <- Np.setslice xdx (Some 1%Z) (Some (-1)%Z) (map (fun u => u / 2.0) d) ;;
  x1 <- x.[1] ;;
  x0 <- x.[0] ;;
  xdx <- Np.setitem xdx 0 (x1 - x0) ;;
  xl <- x.[-1] ;;
  xp <- x.[-2] ;;
  Np.setitem xdx (-1) (xl - xp).

(** The body shared by the statement for [i = 0] and the loop over
    [range(1, N)] (source lines 204-208 and 211-214). *)
Definition sample (x mux xdx s2dw : list R) (normalization : R)
    (i : Z) (samp : list R) : res (list R) :=
  xi <- x.[i] ;;
  mi <- mux.[i] ;;
  let x0 := xi - mi in
  wi <- xdx.[i] ;;
  si <- s2dw.[i] ;;
  let left := erf ((x0 - wi / 2) / si) in
  let right := erf ((x0 + wi / 2) / si) in
  Np.setitem samp i ((right - left) / 2 / wi * normalization).

(** [xdx], by the test [dx is None] (source lines 193-201). *)
Definition pixel_widths (x : list R) (dx : option Np.arg) : res (list R) :=
  match dx with
  | None => gradient_widths x
  | Some d => Np.times d (Np.ones_like x)
  end.

Definition pixel_integrated_gaussian_numba (x : list R) (mu sigma : Np.arg)
    (dx : option Np.arg) (normalization : R) : res (list R) :=
  let N := Np.len x in
  let samp := Np.zeros_like x in
  s2dw <- Np.times (Np.scale (sqrt 2) sigma) (Np.ones_like x) ;;
  mux <- Np.times mu (Np.ones_like x) ;;
  xdx <- pixel_widths x dx ;;
  samp <- sample x mux xdx s2dw normalization 0 samp ;;
  Np.for_each (Np.range 1 N) (sample x mux xdx s2dw normalization) samp.

(** ** [sample_gaussian_line_numba] *)

(** [dw] of the line sampler (source lines 145-149). *)
Definition line_dw (spec_wobs spec_R_fwhm : list R) (line_um velocity_sigma : R) : R :=
  let Rw := np_interp line_um spec_wobs spec_R_fwhm in
  sqrt ((velocity_sigma / 3.0e5) ^ 2 + (1.0 / 2.35 / Rw) ^ 2) * line_um.

Definition sample_gaussian_line_numba (spec_wobs spec_R_fwhm : list R)
    (line_um line_flux velocity_sigma : R) : res (list R) :=
  let dw := line_dw spec_wobs spec_R_fwhm line_um velocity_sigma in
  pixel_integrated_gaussian_numba spec_wobs (Np.Scalar line_um) (Np.Scalar dw)
    None line_flux.

End PixelIntegratedGaussian.

(** ** [resample_template_numba] *)

(** Program points of the pixel loop, recorded as the loop runs. *)
Inductive event : Type :=
| Skipped (i : Z)                 (** [ilo == 0]: [continue] *)
| BackStep (i ilo ihi : Z)        (** just after [ilo -= 1] *)
| Nearest (i ilo ihi : Z)         (** [ilo >= ihi]: [resamp[i] = templ_flux[ihi]] *)
| Exhausted (i : Z)               (** [ilo == Nt - 1]: [break] *)
| Integrated (i ilo ihi : Z).     (** [resamp[i] = np.trapz(...)] *)

(** A computation that may fail and leaves a log of the points it passed. *)
Definition logged (A : Type) : Type := (list event * res A)%type.

Definition ret {A : Type} (a : A) : logged A := ([], Ok a).
Definition tell (e : event) : logged unit := ([e], Ok tt).
Definition lift {A : Type} (m : res A) : logged A := ([], m).

Definition bind_log {A B : Type} (m : logged A) (k : A -> logged B) : logged B :=
  match snd m with
  | Ok a => (fst m ++ fst (k a), snd (k a))
  | Err e => (fst m, Err e)
  end.

Notation "x <~ m ;; k" := (bind_log m (fun x => k))
  (at level 61, m at next level, right associativity).
Notation "m >> k" := (bind_log m (fun _ => k))
  (at level 61, right associativity).

(** [while test(k) & (k < stop): k += 1] *)
Equations? climb (stop : Z) (test : Z -> bool) (k : Z) : Z
  by wf (Z.to_nat (stop - k)) lt :=
  climb stop test k with inspect (test k && (k <? stop)%Z) := {
    | exist _ true go => climb stop test (k + 1);
    | exist _ false _ => k }.
Proof.
  apply andb_prop in go. destruct go as [_ go].
  apply Z.ltb_lt in go. lia.
Qed.

Section TemplateResampler.

Context {rt : Runtime}.

Variables spec_wobs templ_wobs templ_flux dw : list R.
Variable nsig : R.

Let Nt : Z := Np.len templ_wobs.

(** The body of [for i in range(N)], carried over the remaining pixels
    (source lines 79-104). *)
Fixpoint pixel_loop (idx : list Z) (ilo ihi : Z) (resamp : list R)
    : logged (list R) :=
  match idx with
  | [] => ret resamp
  | i :: rest =>
      w <~ lift spec_wobs.[i] ;;
      d <~ lift dw.[i] ;;
      let ilo := climb (Nt - 1) (fun k => Np.peek templ_wobs k <? w - nsig * d) ilo in
      if (ilo =? 0)%Z then
        tell (Skipped i) >> pixel_loop rest ilo ihi resamp
      else
        let ilo := (ilo - 1)%Z in
        tell (BackStep i ilo ihi) >>
        let ihi := climb Nt (fun k => Np.peek templ_wobs k <? w + nsig * d) ihi in
        if (ilo >=? ihi)%Z then
          tell (Nearest i ilo ihi) >>
          v <~ lift templ_flux.[ihi] ;;
          resamp <~ lift (Np.setitem resamp i v) ;;
          pixel_loop rest ilo ihi resamp
        else if (ilo =? Nt - 1)%Z then
          tell (Exhausted i) >> ret resamp
        else
          tell (Integrated i ilo ihi) >>
          let lsl := Np.slice templ_wobs (Some ilo) (Some ihi) in
          let g := map (fun l => exp (- (l - w) ^ 2 / 2 / d ^ 2)
                                 / sqrt (2 * PI * d ^ 2)) lsl in
          fg <~ lift (Np.broadcast2 Rmult (Np.slice templ_flux (Some ilo) (Some ihi)) g) ;;
          resamp <~ lift (Np.setitem resamp i (Np.trapz fg lsl)) ;;
          pixel_loop rest ilo ihi resamp
  end.

End TemplateResampler.

Section ResampleTemplate.

Context {rt : Runtime}.

(** [dw] of the resampler (source lines 61-66). *)
Definition resample_dw (spec_wobs spec_R_fwhm : list R) (velocity_sigma : R)
    : res (list R) :=
  Np.broadcast2 Rmult
    (map (fun r => sqrt ((velocity_sigma / 3.0e5) ^ 2 + (1.0 / 2.35 / r) ^ 2))
         spec_R_fwhm)
    spec_wobs.

Definition resample_template_run (spec_wobs spec_R_fwhm templ_wobs templ_flux : list R)
    (velocity_sigma nsig fill_value : R) : logged (list R) :=
  dw <~ lift (resample_dw spec_wobs spec_R_fwhm velocity_sigma) ;;
  let ilo := 0%Z in
  let ihi := 1%Z in
  let N := Np.len spec_wobs in
  let resamp := map (fun u => u * fill_value) (Np.zeros_like spec_wobs) in
  pixel_loop spec_wobs templ_wobs templ_flux dw nsig (Np.range 0 N) ilo ihi resamp.

(** The value the function returns. *)
Definition resample_template_numba (spec_wobs spec_R_fwhm templ_wobs templ_flux : list R)
    (velocity_sigma nsig fill_value : R) : res (list R) :=
  snd (resample_template_run spec_wobs spec_R_fwhm templ_wobs templ_flux
         velocity_sigma nsig fill_value).

(** The program points it passed on the way. *)
Definition resample_template_log (spec_wobs spec_R_fwhm templ_wobs templ_flux : list R)
    (velocity_sigma nsig fill_value : R) : list event :=
  fst (resample_template_run spec_wobs spec_R_fwhm templ_wobs templ_flux
         velocity_sigma nsig fill_value).

End ResampleTemplate.

(** ** [compute_igm] *)

Module Igm.

(** [m.T] for a two-dimensional array given by its rows. *)
Definition transpose (m : list (list R)) : list (list R) :=
  map (fun k => map (fun row => nth k row 0) m) (seq 0 (length (hd [] m))).

Definition _LAF : list (list R) := transpose [
  [2; 1215.670; 1.68976e-02; 2.35379e-03; 1.02611e-04];
  [3; 1025.720; 4.69229e-03; 6.53625e-04; 2.84940e-05];
  [4; 972.537; 2.23898e-03; 3.11884e-04; 1.35962e-05];
  [5; 949.743; 1.31901e-03; 1.83735e-04; 8.00974e-06];
  [6; 937.803; 8.70656e-04; 1.21280e-04; 5.28707e-06];
  [7; 930.748; 6.17843e-04; 8.60640e-05; 3.75186e-06];
  [8; 926.226; 4.60924e-04; 6.42055e-05; 2.79897e-06];
  [9; 923.150; 3.56887e-04; 4.97135e-05; 2.16720e-06];
  [10; 920.963; 2.84278e-04; 3.95992e-05; 1.72628e-06];
  [11; 919.352; 2.31771e-04; 3.22851e-05; 1.40743e-06];
  [12; 918.129; 1.92348e-04; 2.67936e-05; 1.16804e-06];
  [13; 917.181; 1.62155e-04; 2.25878e-05; 9.84689e-07];
  [14; 916.429; 1.38498e-04; 1.92925e-05; 8.41033e-07];
  [15; 915.824; 1.19611e-04; 1.66615e-05; 7.26340e-07];
  [16; 915.329; 1.04314e-04; 1.45306e-05; 6.33446e-07];
  [17; 914.919; 9.17397e-05; 1.27791e-05; 5.57091e-07];
  [18; 914.576; 8.12784e-05; 1.13219e-05; 4.93564e-07];
  [19; 914.286; 7.25069e-05; 1.01000e-05; 4.40299e-07];
  [20; 914.039; 6.50549e-05; 9.06198e-06; 3.95047e-07];
  [21; 913.826; 5.86816e-05; 8.17421e-06; 3.56345e-07];
  [22; 913.641; 5.31918e-05; 7.40949e-06; 3.23008e-07];
  [23; 913.480; 4.84261e-05; 6.74563e-06; 2.94068e-07];
  [24; 913.339; 4.42740e-05; 6.16726e-06; 2.68854e-07];
  [25; 913.215; 4.06311e-05; 5.65981e-06; 2.46733e-07];
  [26; 913.104; 3.73821e-05; 5.20723e-06; 2.27003e-07];
  [27; 913.006; 3.45377e-05; 4.81102e-06; 2.09731e-07];
  [28; 912.918; 3.19891e-05; 4.45601e-06; 1.94255e-07];
  [29; 912.839; 2.97110e-05; 4.13867e-06; 1.80421e-07];
  [30; 912.768; 2.76635e-05; 3.85346e-06; 1.67987e-07];
  [31; 912.703; 2.58178e-05; 3.59636e-06; 1.56779e-07];
  [32; 912.645; 2.41479e-05; 3.36374e-06; 1.46638e-07];
  [33; 912.592; 2.26347e-05; 3.15296e-06; 1.37450e-07];
  [34; 912.543; 2.12567e-05; 2.96100e-06; 1.29081e-07];
  [35; 912.499; 1.99967e-05; 2.78549e-06; 1.21430e-07];
  [36; 912.458; 1.88476e-05; 2.62543e-06; 1.14452e-07];
  [37; 912.420; 1.77928e-05; 2.47850e-06; 1.08047e-07];
  [38; 912.385; 1.68222e-05; 2.34330e-06; 1.02153e-07];
  [39; 912.353; 1.59286e-05; 2.21882e-06; 9.67268e-08];
  [40; 912.324; 1.50996e-05; 2.10334e-06; 9.16925e-08]].

Definition ALAM : list R := nth 1 _LAF [].
Definition ALAF1 : list R := nth 2 _LAF [].
Definition ALAF2 : list R := nth 3 _LAF [].
Definition ALAF3 : list R := nth 4 _LAF [].

Definition _DLA : list (list R) := transpose [
  [2; 1215.670; 1.61698e-04; 5.38995e-05];
  [3; 1025.720; 1.54539e-04; 5.15129e-05];
  [4; 972.537; 1.49767e-04; 4.99222e-05];
  [5; 949.743; 1.46031e-04; 4.86769e-05];
  [6; 937.803; 1.42893e-04; 4.76312e-05];
  [7; 930.748; 1.40159e-04; 4.67196e-05];
  [8; 926.226; 1.37714e-04; 4.59048e-05];
  [9; 923.150; 1.35495e-04; 4.51650e-05];
  [10; 920.963; 1.33452e-04; 4.44841e-05];
  [11; 919.352; 1.31561e-04; 4.38536e-05];
  [12; 918.129; 1.29785e-04; 4.32617e-05];
  [13; 917.181; 1.28117e-04; 4.27056e-05];
  [14; 916.429; 1.26540e-04; 4.21799e-05];
  [15; 915.824; 1.25041e-04; 4.16804e-05];
  [16; 915.329; 1.23614e-04; 4.12046e-05];
  [17; 914.919; 1.22248e-04; 4.07494e-05];
  [18; 914.576; 1.20938e-04; 4.03127e-05];
  [19; 914.286; 1.19681e-04; 3.98938e-05];
  [20; 914.039; 1.18469e-04; 3.94896e-05];
  [21; 913.826; 1.17298e-04; 3.90995e-05];
  [22; 913.641; 1.16167e-04; 3.87225e-05];
  [23; 913.480; 1.15071e-04; 3.83572e-05];
  [24; 913.339; 1.14011e-04; 3.80037e-05];
  [25; 913.215; 1.12983e-04; 3.76609e-05];
  [26; 913.104; 1.11972e-04; 3.73241e-05];
  [27; 913.006; 1.11002e-04; 3.70005e-05];
  [28; 912.918; 1.10051e-04; 3.66836e-05];
  [29; 912.839; 1.09125e-04; 3.63749e-05];
  [30; 912.768; 1.08220e-04; 3.60734e-05];
  [31; 912.703; 1.07337e-04; 3.57789e-05];
  [32; 912.645; 1.06473e-04; 3.54909e-05];
  [33; 912.592; 1.05629e-04; 3.52096e-05];
  [34; 912.543; 1.04802e-04; 3.49340e-05];
  [35; 912.499; 1.03991e-04; 3.46636e-05];
  [36; 912.458; 1.03198e-04; 3.43994e-05];
  [37; 912.420; 1.02420e-04; 3.41402e-05];
  [38; 912.385; 1.01657e-04; 3.38856e-05];
  [39; 912.353; 1.00908e-04; 3.36359e-05];
  [40; 912.324; 1.00168e-04; 3.33895e-05]].

Definition ADLA1 : list R := nth 2 _DLA [].
Definition ADLA2 : list R := nth 3 _DLA [].

(** [_pow(a, b)] at a float exponent, and at an integer one. *)
Definition _pow (a b : R) : R := Rpower a b.
Definition _powi (a : R) (n : nat) : R := a ^ n.

Definition z1LAF : R := 1.2.
Definition z2LAF : R := 4.7.
Definition z1DLA : R := 2.0.
Definition lamL : R := 911.8.

(** [enumerate(l)], counting from [j]. *)
Fixpoint enumerate (j : nat) (l : list R) : list (nat * R) :=
  match l with
  | [] => []
  | a :: r => (j, a) :: enumerate (S j) r
  end.

(** One turn of [for j, lsj in enumerate(ALAM)] on the running value [tau]
    of [tau[i]] (source lines 368-383). *)
Definition series_row (zS wi : R) (tau : R) (row : nat * R) : R :=
  let j := fst row in
  let lsj := snd row in
  (* LS LAF *)
  let tau :=
    if wi <? lsj * (1 + zS) then
      if wi <? lsj * (1 + z1LAF) then
        tau + nth j ALAF1 0 * _pow (wi / lsj) 1.2
      else if (wi >=? lsj * (1 + z1LAF)) && (wi <? lsj * (1 + z2LAF)) then
        tau + nth j ALAF2 0 * _pow (wi / lsj) 3.7
      else
        tau + nth j ALAF3 0 * _pow (wi / lsj) 5.5
    else tau in
  (* LS DLA *)
  if wi <? lsj * (1 + zS) then
    if wi <? lsj * (1.0 + z1DLA) then
      tau + nth j ADLA1 0 * _powi (wi / lsj) 2
    else
      tau + nth j ADLA2 0 * _powi (wi / lsj) 3
  else tau.

Definition lyman_series (zS wi : R) (tau : R) : R :=
  fold_left (series_row zS wi) (enumerate 0 ALAM) tau.

(** Lyman continuum (source lines 386-450; the flag [x1] of line 395 is
    never read and is left out). *)
Definition lyman_continuum (zS wi : R) (tau : R) : R :=
  if wi <? lamL * (1 + zS) then
    (* LC DLA *)
    let tau :=
      if zS <? z1DLA then
        tau + (0.2113 * _powi (1 + zS) 2
               - 0.07661 * _pow (1 + zS) 2.3 * _pow (wi / lamL) (-3e-1)
               - 0.1347 * _powi (wi / lamL) 2)
      else if wi >=? lamL * (1 + z1DLA) then
        tau + (0.04696 * _powi (1 + zS) 3
               - 0.01779 * _pow (1 + zS) 3.3 * _pow (wi / lamL) (-3e-1)
               - 0.02916 * _powi (wi / lamL) 3)
      else
        tau + (0.6340
               + 0.04696 * _powi (1 + zS) 3
               - 0.01779 * _pow (1 + zS) 3.3 * _pow (wi / lamL) (-3e-1)
               - 0.1347 * _powi (wi / lamL) 2
               - 0.2905 * _pow (wi / lamL) (-3e-1)) in
    (* LC LAF *)
    if zS <? z1LAF then
      tau + 0.3248 * (_pow (wi / lamL) 1.2
                      - _pow (1 + zS) (-9e-1) * _pow (wi / lamL) 2.1)
    else if zS <? z2LAF then
      if wi >=? lamL * (1 + z1LAF) then
        tau + 2.545e-2 * (_pow (1 + zS) 1.6 * _pow (wi / lamL) 2.1
                          - _pow (wi / lamL) 3.7)
      else
        tau + (2.545e-2 * _pow (1 + zS) 1.6 * _pow (wi / lamL) 2.1
               + 0.3248 * _pow (wi / lamL) 1.2
               - 0.2496 * _pow (wi / lamL) 2.1)
    else
      if wi >? lamL * (1.0 + z2LAF) then
        tau + 5.221e-4 * (_pow (1 + zS) 3.4 * _pow (wi / lamL) 2.1
                          - _pow (wi / lamL) 5.5)
      else if (wi >=? lamL * (1 + z1LAF)) && (wi <? lamL * (1 + z2LAF)) then
        tau + (5.221e-4 * _pow (1 + zS) 3.4 * _pow (wi / lamL) 2.1
               + 0.2182 * _pow (wi / lamL) 2.1
               - 2.545e-2 * _pow (wi / lamL) 3.7)
      else if wi <? lamL * (1 + z1LAF) then
        tau + (5.221e-4 * _pow (1 + zS) 3.4 * _pow (wi / lamL) 2.1
               + 0.3248 * _pow (wi / lamL) 1.2
               - 3.140e-2 * _pow (wi / lamL) 2.1)
      else tau
  else tau.

(** The body of [for i, wi in enumerate(wobs)], from the value [tau] that
    [tau[i]] holds on entry (source lines 363-450). *)
Definition accumulate (zS wi : R) (tau : R) : R :=
  if wi >? 1300.0 * (1 + zS) then tau
  else lyman_continuum zS wi (lyman_series zS wi tau).

(** The loop over [wobs], storing into [tau]. *)
Definition tau_loop (zS : R) (wobs : list R) (tau : list R) : list R :=
  fold_left
    (fun tau iw => Np.update tau (fst iw) (accumulate zS (snd iw) (nth (fst iw) tau 0)))
    (enumerate 0 wobs) tau.

Definition compute_igm (z : R) (wobs : list R) (scale_tau : R) : list R :=
  let tau := Np.zeros_like wobs in
  let zS := z in
  let tau := tau_loop zS wobs tau in
  map (fun t => exp (- scale_tau * t)) tau.

End Igm.

(** ** Vocabulary of the statements *)

(** Entry [i] of a scalar-or-array argument once broadcast. *)
Definition entry (a : Np.arg) (i : nat) : R :=
  match a with
  | Np.Scalar s => s
  | Np.Array l => nth i l 0
  end.

(** An argument that broadcasts against [x] entry by entry. *)
Definition conforms (a : Np.arg) (x : list R) : Prop :=
  match a with
  | Np.Scalar _ => True
  | Np.Array l => length l = length x
  end.

(** The value the specification gives for one sample (spec 4.1):
    [(right - left) / 2 / dx * normalization], with
    [left = erf((x0 - dx/2) / s2)], [right = erf((x0 + dx/2) / s2)],
    [x0 = x - mu] and [s2 = sqrt(2) * sigma]. *)
Definition integrated_gaussian {rt : Runtime} (xi mu sigma dxi normalization : R) : R :=
  let x0 := xi - mu in
  let s2 := sqrt 2 * sigma in
  (erf ((x0 + dxi / 2) / s2) - erf ((x0 - dxi / 2) / s2)) / 2 / dxi * normalization.

(** What the windows of the resampler must satisfy where the loop records
    them: after the back-step [0 <= ilo <= Nt - 2] and [1 <= ihi <= Nt];
    in the nearest-neighbour branch [ihi <= Nt - 2]. *)
Definition window_ok (Nt : Z) (e : event) : Prop :=
  match e with
  | BackStep _ ilo ihi => (0 <= ilo <= Nt - 2)%Z /\ (1 <= ihi <= Nt)%Z
  | Nearest _ ilo ihi => (ilo >= ihi)%Z /\ (1 <= ihi <= Nt - 2)%Z
  | _ => True
  end.

(** The entrywise combination [a * l1 + b * l2] of two arrays. *)
Definition combination (a b : R) (l1 l2 : list R) : list R :=
  map (fun p => a * fst p + b * snd p) (combine l1 l2).

(** A strictly increasing grid. *)
Definition increasing (x : list R) : Prop :=
  forall i, (S i < length x)%nat -> nth i x 0 < nth (S i) x 0.

(** The pixel an event was recorded for. *)
Definition event_pixel (e : event) : Z :=
  match e with
  | Skipped i => i
  | BackStep i _ _ => i
  | Nearest i _ _ => i
  | Exhausted i => i
  | Integrated i _ _ => i
  end.

(** The event is not the [break] of the loop. *)
Definition not_break (e : event) : Prop :=
  match e with
  | Exhausted _ => False
  | _ => True
  end.

(** The Lyman-series terms as the specification words them (spec 4.4):
    for a row with rest wavelength [lsj], a forest term with exponent 1.2,
    3.7 or 5.5 by the position of [wi] against [lsj (1 + 1.2)] and
    [lsj (1 + 4.7)], and a damped term with exponent 2 or 3 by its position
    against [lsj (1 + 2.0)], each only when [wi < lsj (1 + z)] and each
    scaled by the coefficient of row [j]. *)
Definition forest_exponent (wi lsj : R) : R :=
  if wi <? lsj * (1 + 1.2) then 1.2
  else if wi <? lsj * (1 + 4.7) then 3.7
  else 5.5.

Definition forest_coefficient (wi lsj : R) (j : nat) : R :=
  if wi <? lsj * (1 + 1.2) then nth j Igm.ALAF1 0
  else if wi <? lsj * (1 + 4.7) then nth j Igm.ALAF2 0
  else nth j Igm.ALAF3 0.

Definition forest_term (z wi : R) (row : nat * R) : R :=
  let j := fst row in
  let lsj := snd row in
  if wi <? lsj * (1 + z)
  then forest_coefficient wi lsj j * Rpower (wi / lsj) (forest_exponent wi lsj)
  else 0.

Definition damped_exponent (wi lsj : R) : nat :=
  if wi <? lsj * (1 + 2.0) then 2%nat else 3%nat.

Definition damped_coefficient (wi lsj : R) (j : nat) : R :=
  if wi <? lsj * (1 + 2.0) then nth j Igm.ADLA1 0 else nth j Igm.ADLA2 0.

Definition damped_term (z wi : R) (row : nat * R) : R :=
  let j := fst row in
  let lsj := snd row in
  if wi <? lsj * (1 + z)
  then damped_coefficient wi lsj j * (wi / lsj) ^ damped_exponent wi lsj
  else 0.

Definition total (l : list R) : R := fold_right Rplus 0 l.

(** The kernel width the code computes (spec 4.2 and 4.3, with the
    constant of the source): [wave * sqrt((v / 3e5)^2 + (1 / (2.35 R))^2)]. *)
Definition kernel_width (c_km_s wave resolution velocity_sigma : R) : R :=
  wave * sqrt ((velocity_sigma / c_km_s) ^ 2 + (1 / (2.35 * resolution)) ^ 2).

(** ** A runtime over the reals

    An instance of [Runtime], so that the statements below can be run on
    concrete inputs: [erf] as the integral of the Gaussian, [np.interp] as
    clamped linear interpolation, and zero for stray reads.  No statement
    depends on these particular definitions. *)

Module ReferenceRuntime.

Definition gauss (t : R) : R := exp (- t ^ 2).

Lemma gauss_continuous : continuity gauss.
Proof. unfold gauss; reg. Qed.

Lemma gauss_integrable (a b : R) : Riemann_integrable gauss a b.
Proof.
  destruct (Rle_dec a b).
  - apply continuity_implies_RiemannInt; [assumption | intros; apply gauss_continuous].
  - apply RiemannInt_P1, continuity_implies_RiemannInt;
      [lra | intros; apply gauss_continuous].
Defined.

Definition erf_integral (u : R) : R := 2 / sqrt PI * RiemannInt (gauss_integrable 0 u).

Fixpoint interp_segments (u : R) (xp fp : list R) : R :=
  match xp, fp with
  | x0 :: xs, f0 :: fs =>
      match xs, fs with
      | x1 :: _, f1 :: _ =>
          if u <? x1 then f0 + (u - x0) * (f1 - f0) / (x1 - x0)
          else interp_segments u xs fs
      | _, _ => f0
      end
  | _, _ => 0
  end.

Definition interp_clamped (u : R) (xp fp : list R) : R :=
  match xp, fp with
  | x0 :: _, f0 :: _ => if u <=? x0 then f0 else interp_segments u xp fp
  | _, _ => 0
  end.

Definition reals : Runtime :=
  {| erf := erf_integral; np_interp := interp_clamped; stray := fun _ => 0 |}.

End ReferenceRuntime.

(** * Properties *)

(** ** Facts about the array operations *)

Module NpFacts.

Lemma ltb_true (a b : R) : a < b -> (a <? b) = true.
Proof. intros h; unfold Np.ltb; destruct (Rlt_dec a b); [reflexivity | contradiction]. Qed.

Lemma ltb_false (a b : R) : b <= a -> (a <? b) = false.
Proof. intros h; unfold Np.ltb; destruct (Rlt_dec a b); [lra | reflexivity]. Qed.

Lemma leb_true (a b : R) : a <= b -> (a <=? b) = true.
Proof. intros h; unfold Np.leb; destruct (Rle_dec a b); [reflexivity | contradiction]. Qed.

Lemma leb_false (a b : R) : b < a -> (a <=? b) = false.
Proof. intros h; unfold Np.leb; destruct (Rle_dec a b); [lra | reflexivity]. Qed.

Lemma ltb_iff (a b : R) : (a <? b) = true <-> a < b.
Proof.
  unfold Np.ltb; destruct (Rlt_dec a b); split; intros; auto; discriminate.
Qed.

Lemma leb_iff (a b : R) : (a <=? b) = true <-> a <= b.
Proof.
  unfold Np.leb; destruct (Rle_dec a b); split; intros; auto; discriminate.
Qed.

Lemma length_zeros_like (x : list R) : length (Np.zeros_like x) = length x.
Proof. apply length_map. Qed.

Lemma length_ones_like (x : list R) : length (Np.ones_like x) = length x.
Proof. apply length_map. Qed.

Lemma nth_ones_like (x : list R) (k : nat) :
  (k < length x)%nat -> nth k (Np.ones_like x) 0 = 1.
Proof.
  revert k; induction x as [|a x IH]; intros [|k] hk; simpl in *;
    try lia; [reflexivity | apply IH; lia].
Qed.

Lemma length_update (x : list R) (k : nat) (v : R) :
  length (Np.update x k v) = length x.
Proof.
  revert k; induction x as [|a x IH]; intros [|k]; simpl; auto.
Qed.

Lemma nth_update_eq (x : list R) (k : nat) (v d : R) :
  (k < length x)%nat -> nth k (Np.update x k v) d = v.
Proof.
  revert k; induction x as [|a x IH]; intros [|k] hk; simpl in *;
    try lia; [reflexivity | apply IH; lia].
Qed.

Lemma nth_update_neq (x : list R) (k j : nat) (v d : R) :
  j <> k -> nth j (Np.update x k v) d = nth j x d.
Proof.
  revert k j; induction x as [|a x IH]; intros [|k] [|j] hjk; simpl;
    try reflexivity; try congruence.
  apply IH; congruence.
Qed.

Lemma inside_nat (n k : nat) : (k < n)%nat -> Np.inside n (Z.of_nat k) = true.
Proof.
  intros hk; unfold Np.inside, Np.wrap.
  destruct (Z.ltb_spec (Z.of_nat k) 0); [lia|].
  apply andb_true_intro; split; [apply Z.leb_le | apply Z.ltb_lt]; lia.
Qed.

Lemma wrap_nat (n k : nat) : Np.wrap n (Z.of_nat k) = Z.of_nat k.
Proof. unfold Np.wrap; destruct (Z.ltb_spec (Z.of_nat k) 0); lia. Qed.

Lemma inside_iff (n : nat) (i : Z) :
  Np.inside n i = true <-> (- Z.of_nat n <= i < Z.of_nat n)%Z.
Proof.
  unfold Np.inside, Np.wrap; rewrite andb_true_iff, Z.leb_le, Z.ltb_lt.
  destruct (Z.ltb_spec i 0); lia.
Qed.

Lemma getitem_nat (x : list R) (k : nat) :
  (k < length x)%nat -> x.[Z.of_nat k] = Ok (nth k x 0).
Proof.
  intros hk; unfold Np.getitem.
  rewrite inside_nat, wrap_nat, Nat2Z.id by assumption; reflexivity.
Qed.

Lemma getitem_outside (x : list R) (i : Z) :
  Np.inside (length x) i = false -> x.[i] = Err (IndexError i (length x)).
Proof. intros h; unfold Np.getitem; rewrite h; reflexivity. Qed.

Lemma getitem_ok (x : list R) (i : Z) :
  Np.inside (length x) i = true -> exists v, x.[i] = Ok v.
Proof. intros h; unfold Np.getitem; rewrite h; eauto. Qed.

Lemma setitem_nat (x : list R) (k : nat) (v : R) :
  (k < length x)%nat -> Np.setitem x (Z.of_nat k) v = Ok (Np.update x k v).
Proof.
  intros hk; unfold Np.setitem.
  rewrite inside_nat, wrap_nat, Nat2Z.id by assumption; reflexivity.
Qed.

Lemma setitem_last (x : list R) (v : R) :
  (0 < length x)%nat -> Np.setitem x (-1) v = Ok (Np.update x (length x - 1) v).
Proof.
  intros hk; unfold Np.setitem.
  assert (hi : Np.inside (length x) (-1) = true) by (apply inside_iff; lia).
  rewrite hi; unfold Np.wrap; change (-1 <? 0)%Z with true; cbv iota.
  replace (Z.to_nat (-1 + Z.of_nat (length x))) with (length x - 1)%nat by lia.
  reflexivity.
Qed.

Lemma getitem_neg (x : list R) (k : nat) :
  (0 < k <= length x)%nat ->
  x.[- Z.of_nat k] = Ok (nth (length x - k) x 0).
Proof.
  intros hk; unfold Np.getitem.
  assert (hi : Np.inside (length x) (- Z.of_nat k) = true) by (apply inside_iff; lia).
  rewrite hi; unfold Np.wrap.
  destruct (Z.ltb_spec (- Z.of_nat k) 0); [|lia].
  replace (Z.to_nat (- Z.of_nat k + Z.of_nat (length x))) with (length x - k)%nat by lia.
  reflexivity.
Qed.

Lemma range_nat (a b : nat) :
  Np.range (Z.of_nat a) (Z.of_nat b) = map Z.of_nat (seq a (b - a)).
Proof.
  unfold Np.range.
  replace (Z.to_nat (Z.of_nat b - Z.of_nat a)) with (b - a)%nat by lia.
  generalize (b - a)%nat as n; intros n.
  assert (shift : forall s, map (fun k => (Z.of_nat a + Z.of_nat k)%Z) (seq s n)
                            = map Z.of_nat (seq (a + s) n)).
  { induction n as [|n IH]; intros s; simpl; [reflexivity|].
    f_equal; [lia|].
    rewrite IH; do 2 f_equal; lia. }
  rewrite shift, Nat.add_0_r; reflexivity.
Qed.

Lemma broadcast2_same (f : R -> R -> R) (a b : list R) :
  length a = length b ->
  Np.broadcast2 f a b = Ok (map (fun p => f (fst p) (snd p)) (combine a b)).
Proof. intros h; unfold Np.broadcast2; rewrite h, Nat.eqb_refl; reflexivity. Qed.

Lemma nth_zip (f : R -> R -> R) (a b : list R) (k : nat) :
  length a = length b -> (k < length a)%nat ->
  nth k (map (fun p => f (fst p) (snd p)) (combine a b)) 0 = f (nth k a 0) (nth k b 0).
Proof.
  intros hl hk.
  rewrite (nth_indep _ 0 (f 0 0)) by (rewrite length_map, length_combine; lia).
  etransitivity; [exact (map_nth (fun p => f (fst p) (snd p)) (combine a b) (0, 0) k)|].
  rewrite combine_nth by assumption; reflexivity.
Qed.

Lemma length_zip (f : R -> R -> R) (a b : list R) :
  length a = length b ->
  length (map (fun p => f (fst p) (snd p)) (combine a b)) = length a.
Proof. intros hl; rewrite length_map, length_combine; lia. Qed.

Lemma nth_map0 (f : R -> R) (l : list R) (k : nat) :
  (k < length l)%nat -> nth k (map f l) 0 = f (nth k l 0).
Proof.
  intros hk; rewrite (nth_indep _ 0 (f 0)) by (rewrite length_map; lia).
  apply map_nth.
Qed.

End NpFacts.

(** ** The pixel-integrated Gaussian *)

Section PixelIntegratedGaussianFacts.

Context {rt : Runtime}.

Variables (x mux xdx s2dw : list R) (normalization : R).

(** What [sample] stores at position [k]. *)
Let cell (k : nat) : R :=
  let x0 := nth k x 0 - nth k mux 0 in
  let wi := nth k xdx 0 in
  let si := nth k s2dw 0 in
  (erf ((x0 + wi / 2) / si) - erf ((x0 - wi / 2) / si)) / 2 / wi * normalization.

Hypothesis len_mux : length mux = length x.
Hypothesis len_xdx : length xdx = length x.
Hypothesis len_s2dw : length s2dw = length x.

Lemma sample_nat (k : nat) (samp : list R) :
  (k < length x)%nat -> length samp = length x ->
  sample x mux xdx s2dw normalization (Z.of_nat k) samp = Ok (Np.update samp k (cell k)).
Proof.
  intros hk hs; unfold sample.
  rewrite !NpFacts.getitem_nat by lia; simpl.
  rewrite NpFacts.setitem_nat by lia; reflexivity.
Qed.

Lemma for_each_sample (ks : list nat) (samp : list R) :
  Forall (fun k => (k < length x)%nat) ks -> length samp = length x ->
  Np.for_each (map Z.of_nat ks) (sample x mux xdx s2dw normalization) samp
  = Ok (fold_left (fun s k => Np.update s k (cell k)) ks samp).
Proof.
  intros hks; revert samp; induction hks as [|k ks hk hks IH]; intros samp hs; simpl.
  - reflexivity.
  - rewrite sample_nat by assumption; simpl.
    apply IH; rewrite NpFacts.length_update; assumption.
Qed.

Lemma length_fold_update (c : nat -> R) (ks : list nat) (s : list R) :
  length (fold_left (fun s k => Np.update s k (c k)) ks s) = length s.
Proof.
  revert s; induction ks as [|k ks IH]; intros s; simpl; [reflexivity|].
  rewrite IH; apply NpFacts.length_update.
Qed.

Lemma nth_fold_update_other (c : nat -> R) (ks : list nat) (s : list R) (i : nat) :
  ~ In i ks ->
  nth i (fold_left (fun s k => Np.update s k (c k)) ks s) 0 = nth i s 0.
Proof.
  revert s; induction ks as [|k ks IH]; intros s hin; simpl; [reflexivity|].
  rewrite IH by (intros h; apply hin; right; exact h).
  apply NpFacts.nth_update_neq; intros ->; apply hin; left; reflexivity.
Qed.

Lemma nth_fold_update (c : nat -> R) (ks : list nat) (s : list R) (i : nat) :
  In i ks -> (i < length s)%nat ->
  nth i (fold_left (fun s k => Np.update s k (c k)) ks s) 0 = c i.
Proof.
  revert s; induction ks as [|k ks IH]; intros s hin hi; simpl; [destruct hin|].
  destruct (in_dec Nat.eq_dec i ks) as [hi'|hi'].
  - apply IH; [assumption | rewrite NpFacts.length_update; assumption].
  - destruct hin as [->|hin]; [|contradiction].
    rewrite nth_fold_update_other by assumption.
    apply NpFacts.nth_update_eq; assumption.
Qed.

(** The two statements of the source (index 0, then [range(1, N)]) fill
    every position. *)
Lemma sample_all :
  (0 < length x)%nat ->
  exists samp,
    (samp0 <- sample x mux xdx s2dw normalization 0 (Np.zeros_like x) ;;
     Np.for_each (Np.range 1 (Np.len x)) (sample x mux xdx s2dw normalization) samp0)
    = Ok samp
    /\ length samp = length x
    /\ forall i, (i < length x)%nat -> nth i samp 0 = cell i.
Proof.
  intros hpos.
  pose (ks := (0 :: seq 1 (length x - 1))%nat).
  exists (fold_left (fun s k => Np.update s k (cell k)) ks (Np.zeros_like x)).
  split; [|split].
  - change 0%Z with (Z.of_nat 0).
    rewrite sample_nat by (try apply NpFacts.length_zeros_like; lia); simpl bind.
    change 1%Z with (Z.of_nat 1); unfold Np.len; rewrite NpFacts.range_nat.
    rewrite for_each_sample.
    + reflexivity.
    + apply Forall_forall; intros k hk; apply in_seq in hk; lia.
    + rewrite NpFacts.length_update; apply NpFacts.length_zeros_like.
  - rewrite length_fold_update; apply NpFacts.length_zeros_like.
  - intros i hi; apply nth_fold_update.
    + destruct i as [|i]; [left; reflexivity | right; apply in_seq; lia].
    + rewrite NpFacts.length_zeros_like; assumption.
Qed.

End PixelIntegratedGaussianFacts.

Section BroadcastFacts.

Lemma times_conforms (a : Np.arg) (x : list R) :
  conforms a x ->
  exists l, Np.times a (Np.ones_like x) = Ok l
            /\ length l = length x
            /\ forall k, (k < length x)%nat -> nth k l 0 = entry a k.
Proof.
  destruct a as [s|l]; simpl; intros hc.
  - eexists; split; [reflexivity|]; split.
    + rewrite length_map; apply NpFacts.length_ones_like.
    + intros k hk.
      rewrite NpFacts.nth_map0 by (rewrite NpFacts.length_ones_like; assumption).
      rewrite NpFacts.nth_ones_like by assumption; lra.
  - pose proof (NpFacts.length_ones_like x) as ho.
    rewrite NpFacts.broadcast2_same by congruence.
    eexists; split; [reflexivity|]; split.
    + rewrite NpFacts.length_zip; congruence.
    + intros k hk.
      rewrite NpFacts.nth_zip by congruence.
      rewrite NpFacts.nth_ones_like by assumption; lra.
Qed.

Lemma conforms_scale (s : R) (a : Np.arg) (x : list R) :
  conforms a x -> conforms (Np.scale s a) x.
Proof. destruct a; simpl; [trivial | rewrite length_map; trivial]. Qed.

Lemma entry_scale (s : R) (a : Np.arg) (x : list R) (k : nat) :
  conforms a x -> (k < length x)%nat -> entry (Np.scale s a) k = s * entry a k.
Proof.
  destruct a as [r|l]; simpl; intros hc hk; [reflexivity|].
  apply NpFacts.nth_map0; lia.
Qed.

(** Against a one-element array every argument broadcasts. *)
Lemma times_single (a : Np.arg) (u : R) : exists l, Np.times a [u] = Ok l.
Proof.
  destruct a as [s|l]; simpl; [eauto|].
  unfold Np.broadcast2.
  destruct (Nat.eqb (length l) (length [u])); [eauto|].
  destruct l as [|a0 [|a1 l]]; eauto.
Qed.

End BroadcastFacts.

(** ** The pixel widths of [dx is None] *)

Section GradientWidths.

Variable x : list R.

Let N : nat := length x.

Lemma slice_from_2 : (2 <= N)%nat -> Np.slice x (Some 2%Z) None = skipn 2 x.
Proof.
  intros hN; unfold Np.slice, Np.bound, Np.clip, Np.len; fold N.
  change (2 <? 0)%Z with false; cbv iota.
  replace (Z.min 2 (Z.of_nat N)) with 2%Z by lia.
  apply firstn_all2; rewrite length_skipn; fold N; lia.
Qed.

Lemma slice_to_minus_2 : (2 <= N)%nat -> Np.slice x None (Some (-2)%Z) = firstn (N - 2) x.
Proof.
  intros hN; unfold Np.slice, Np.bound, Np.clip; fold N.
  change (-2 <? 0)%Z with true; cbv iota.
  replace (Z.to_nat (Z.max 0 (-2 + Z.of_nat N) - 0)) with (N - 2)%nat by lia.
  reflexivity.
Qed.

(** The array [(x[2:] - x[:-2]) / 2.0]. *)
Let centred : list R :=
  map (fun u => u / 2.0)
      (map (fun p => fst p - snd p) (combine (skipn 2 x) (firstn (N - 2) x))).

Lemma length_centred : (2 <= N)%nat -> length centred = (N - 2)%nat.
Proof.
  intros hN; unfold centred.
  rewrite length_map, NpFacts.length_zip; rewrite length_skipn; fold N; [reflexivity|].
  rewrite length_firstn; fold N; lia.
Qed.

Lemma nth_centred (k : nat) :
  (2 <= N)%nat -> (k < N - 2)%nat ->
  nth k centred 0 = (nth (k + 2) x 0 - nth k x 0) / 2.
Proof.
  intros hN hk; unfold centred.
  assert (hl : length (skipn 2 x) = length (firstn (N - 2) x)).
  { rewrite length_skipn, length_firstn; fold N; lia. }
  rewrite NpFacts.nth_map0 by (rewrite NpFacts.length_zip, length_skipn; fold N; lia).
  rewrite NpFacts.nth_zip by first [exact hl | rewrite length_skipn; fold N; lia].
  rewrite nth_skipn, nth_firstn.
  destruct (Nat.ltb_spec k (N - 2)); [|lia].
  replace (2 + k)%nat with (k + 2)%nat by lia; lra.
Qed.

Lemma gradient_widths_run :
  (2 <= N)%nat ->
  gradient_widths x
  = Ok (Np.update
          (Np.update (firstn 1 (Np.ones_like x) ++ centred ++ skipn (N - 1) (Np.ones_like x))
                     0 (nth 1 x 0 - nth 0 x 0))
          (N - 1) (nth (N - 1) x 0 - nth (N - 2) x 0)).
Proof.
  intros hN; unfold gradient_widths.
  rewrite slice_from_2, slice_to_minus_2 by assumption.
  rewrite NpFacts.broadcast2_same by (rewrite length_skipn, length_firstn; fold N; lia).
  cbn [bind]; fold centred.
  unfold Np.setslice, Np.bound, Np.clip, Np.len.
  rewrite NpFacts.length_ones_like; fold N.
  change (1 <? 0)%Z with false; change (-1 <? 0)%Z with true; cbv iota.
  replace (Z.to_nat (Z.max 0 (-1 + Z.of_nat N) - Z.min 1 (Z.of_nat N))) with (N - 2)%nat by lia.
  replace (Z.to_nat (Z.min 1 (Z.of_nat N))) with 1%nat by lia.
  rewrite length_centred, Nat.eqb_refl by assumption.
  replace (1 + (N - 2))%nat with (N - 1)%nat by lia.
  cbn [bind].
  change 1%Z with (Z.of_nat 1); change 0%Z with (Z.of_nat 0).
  rewrite !NpFacts.getitem_nat by (fold N; lia); cbn [bind].
  assert (hlen : length (firstn 1 (Np.ones_like x) ++ centred
                         ++ skipn (N - 1) (Np.ones_like x)) = N).
  { rewrite !length_app, length_firstn, length_skipn, length_centred by assumption.
    rewrite NpFacts.length_ones_like; fold N; lia. }
  rewrite NpFacts.setitem_nat by (rewrite hlen; lia); cbn [bind].
  change (-1)%Z with (- Z.of_nat 1)%Z; change (-2)%Z with (- Z.of_nat 2)%Z.
  rewrite !NpFacts.getitem_neg by (fold N; lia); cbn [bind]; fold N.
  change (- Z.of_nat 1)%Z with (-1)%Z.
  rewrite NpFacts.setitem_last by (rewrite NpFacts.length_update, hlen; lia).
  rewrite NpFacts.length_update, hlen; reflexivity.
Qed.

Lemma gradient_widths_short : (N < 2)%nat -> gradient_widths x = Err (IndexError 1 N).
Proof.
  unfold N; destruct x as [|a [|b l]]; simpl length; intros hN; [reflexivity | reflexivity | lia].
Qed.

End GradientWidths.

(** ** Claims about [pixel_integrated_gaussian_numba] and [sample_gaussian_line_numba] *)

Section PixelIntegratedGaussianClaims.

Context {rt : Runtime}.

(** Once the three broadcast arrays exist, every sample gets the value of
    the specification. *)
Lemma pixel_integrated_gaussian_run (x : list R) (mu sigma : Np.arg)
    (dx : option Np.arg) (normalization : R) (w : list R) :
  conforms mu x -> conforms sigma x ->
  pixel_widths x dx = Ok w -> length w = length x -> (0 < length x)%nat ->
  exists samp,
    pixel_integrated_gaussian_numba x mu sigma dx normalization = Ok samp
    /\ length samp = length x
    /\ forall i, (i < length x)%nat ->
         nth i samp 0
         = integrated_gaussian (nth i x 0) (entry mu i) (entry sigma i) (nth i w 0)
             normalization.
Proof.
  intros hmu hsigma hw hlen hpos.
  destruct (times_conforms (Np.scale (sqrt 2) sigma) x (conforms_scale _ _ _ hsigma))
    as (s2dw & hs2 & ls2 & ns2).
  destruct (times_conforms mu x hmu) as (mux & hmx & lmx & nmx).
  destruct (sample_all x mux w s2dw normalization lmx hlen ls2 hpos)
    as (samp & hrun & lsamp & nsamp).
  exists samp; split; [|split].
  - unfold pixel_integrated_gaussian_numba.
    rewrite hs2; cbn [bind]; rewrite hmx; cbn [bind]; rewrite hw; cbn [bind].
    exact hrun.
  - exact lsamp.
  - intros i hi; rewrite (nsamp i hi), (nmx i hi), (ns2 i hi).
    rewrite (entry_scale (sqrt 2) sigma x hsigma hi).
    reflexivity.
Qed.

(** C6. For a scalar or per-sample [sigma], [pixel_integrated_gaussian_numba]
    returns at every index [i] the value
    [(erf((x0 + dx[i]/2) / (sqrt(2) sigma[i])) - erf((x0 - dx[i]/2) / (sqrt(2) sigma[i])))
     / 2 / dx[i] * normalization] with [x0 = x[i] - mu], where [dx[i]] is entry
    [i] of the pixel widths in use: of whatever [pixel_widths] yields, and so
    of the argument [dx] when it is given.  (The equation needs no sign
    condition on [dx[i]] in this model.) *)
Theorem pixel_integrated_gaussian_value (x : list R) (mu : R) (sigma : Np.arg)
    (normalization : R) (i : nat) :
  conforms sigma x -> (i < length x)%nat ->
  (forall (dx : option Np.arg) (w : list R),
      pixel_widths x dx = Ok w -> length w = length x ->
      exists samp,
        pixel_integrated_gaussian_numba x (Np.Scalar mu) sigma dx normalization = Ok samp
        /\ length samp = length x
        /\ nth i samp 0
           = (erf ((nth i x 0 - mu + nth i w 0 / 2) / (sqrt 2 * entry sigma i))
              - erf ((nth i x 0 - mu - nth i w 0 / 2) / (sqrt 2 * entry sigma i)))
             / 2 / nth i w 0 * normalization)
  /\ (forall dx : Np.arg,
        conforms dx x ->
        exists samp,
          pixel_integrated_gaussian_numba x (Np.Scalar mu) sigma (Some dx) normalization
          = Ok samp
          /\ length samp = length x
          /\ nth i samp 0
             = (erf ((nth i x 0 - mu + entry dx i / 2) / (sqrt 2 * entry sigma i))
                - erf ((nth i x 0 - mu - entry dx i / 2) / (sqrt 2 * entry sigma i)))
               / 2 / entry dx i * normalization).
Proof.
  intros hsigma hi.
  assert (general : forall (dx : option Np.arg) (w : list R),
             pixel_widths x dx = Ok w -> length w = length x ->
             exists samp,
               pixel_integrated_gaussian_numba x (Np.Scalar mu) sigma dx normalization
               = Ok samp
               /\ length samp = length x
               /\ nth i samp 0
                  = integrated_gaussian (nth i x 0) mu (entry sigma i) (nth i w 0)
                      normalization).
  { intros dx w hw lw.
    destruct (pixel_integrated_gaussian_run x (Np.Scalar mu) sigma dx
                normalization I hsigma hw lw) as (samp & hrun & lsamp & nsamp); [lia|].
    exists samp; repeat split; try assumption.
    exact (nsamp i hi). }
  split; [exact general|].
  intros dx hdx.
  destruct (times_conforms dx x hdx) as (w & hw & lw & nw).
  destruct (general (Some dx) w hw lw) as (samp & hrun & lsamp & nsamp).
  exists samp; repeat split; try assumption.
  rewrite nsamp, (nw i hi); reflexivity.
Qed.

Lemma gradient_widths_values (x : list R) :
  (2 <= length x)%nat ->
  exists w,
    pixel_widths x None = Ok w
    /\ length w = length x
    /\ nth 0 w 0 = nth 1 x 0 - nth 0 x 0
    /\ nth (length x - 1) w 0 = nth (length x - 1) x 0 - nth (length x - 2) x 0
    /\ forall i, (1 <= i <= length x - 2)%nat ->
         nth i w 0 = (nth (i + 1) x 0 - nth (i - 1) x 0) / 2.
Proof.
  intros hN; simpl pixel_widths; rewrite gradient_widths_run by assumption.
  set (body := firstn 1 (Np.ones_like x) ++ _).
  assert (hlen : length body = length x).
  { unfold body; rewrite !length_app, length_firstn, length_skipn, length_map.
    rewrite NpFacts.length_zip; rewrite length_skipn; [|rewrite length_firstn; lia].
    rewrite NpFacts.length_ones_like; lia. }
  eexists; split; [reflexivity|]; split; [|split; [|split]].
  - rewrite !NpFacts.length_update; exact hlen.
  - rewrite NpFacts.nth_update_neq by lia.
    apply NpFacts.nth_update_eq; lia.
  - apply NpFacts.nth_update_eq; rewrite NpFacts.length_update; lia.
  - intros i hi.
    rewrite !NpFacts.nth_update_neq by lia.
    unfold body.
    rewrite app_nth2; rewrite length_firstn, NpFacts.length_ones_like;
      replace (Nat.min 1 (length x)) with 1%nat by lia; [|lia].
    rewrite app_nth1 by (rewrite length_centred; lia).
    rewrite nth_centred by lia.
    replace (i - 1 + 2)%nat with (i + 1)%nat by lia; reflexivity.
Qed.

(** C7. For [N >= 2] and [dx] omitted the pixel widths are
    [x[1] - x[0]] at the first sample, [x[N-1] - x[N-2]] at the last, and
    [(x[i+1] - x[i-1]) / 2] at every interior index [1 <= i <= N-2]. *)
Theorem gradient_pixel_widths (x : list R) :
  (2 <= length x)%nat ->
  exists w,
    pixel_widths x None = Ok w
    /\ length w = length x
    /\ nth 0 w 0 = nth 1 x 0 - nth 0 x 0
    /\ nth (length x - 1) w 0 = nth (length x - 1) x 0 - nth (length x - 2) x 0
    /\ forall i, (1 <= i <= length x - 2)%nat ->
         nth i w 0 = (nth (i + 1) x 0 - nth (i - 1) x 0) / 2.
Proof. exact (gradient_widths_values x). Qed.

Lemma gradient_pixel_widths_witness :
  exists w,
    pixel_widths [0; 1; 3; 6] None = Ok w
    /\ length w = 4%nat
    /\ nth 0 w 0 = 1 - 0
    /\ nth 3 w 0 = 6 - 3
    /\ forall i, (1 <= i <= 2)%nat ->
         nth i w 0 = (nth (i + 1) [0; 1; 3; 6] 0 - nth (i - 1) [0; 1; 3; 6] 0) / 2.
Proof. apply (gradient_pixel_widths [0; 1; 3; 6]); simpl; lia. Defined.

Lemma pixel_widths_none_ok (x : list R) :
  (exists w, pixel_widths x None = Ok w) <-> (2 <= length x)%nat.
Proof.
  split.
  - intros [w hw]; destruct (Nat.lt_ge_cases (length x) 2) as [hlt|]; [|assumption].
    simpl in hw; rewrite gradient_widths_short in hw by assumption; discriminate.
  - intros hN; destruct (gradient_widths_values x hN) as (w & hw & _); eauto.
Qed.

Lemma pixel_integrated_gaussian_none_ok (x : list R) (mu sigma : Np.arg)
    (normalization : R) :
  conforms mu x -> conforms sigma x ->
  (exists r, pixel_integrated_gaussian_numba x mu sigma None normalization = Ok r)
  <-> (2 <= length x)%nat.
Proof.
  intros hmu hsigma; split.
  - intros [r hr]; destruct (Nat.lt_ge_cases (length x) 2) as [hlt|]; [|assumption].
    unfold pixel_integrated_gaussian_numba in hr.
    destruct (Np.times (Np.scale (sqrt 2) sigma) (Np.ones_like x)); [|discriminate].
    destruct (Np.times mu (Np.ones_like x)); [|discriminate].
    cbn [bind pixel_widths] in hr.
    rewrite gradient_widths_short in hr by assumption; discriminate.
  - intros hN; destruct (gradient_widths_values x hN) as (w & hw & lw & _).
    destruct (pixel_integrated_gaussian_run x mu sigma None normalization
                hmu hsigma hw lw) as (samp & hrun & _); [lia | eauto].
Qed.

(** C10. On a one-element [x] the width derivation subscripts [x[1]] and
    [x[-2]] (position [N - 2 = -1]), both outside the array, and the whole
    call stops at the first of them; the derivation, and with it
    [sample_gaussian_line_numba], which passes no [dx], goes through exactly
    when [N >= 2]. *)
Theorem gradient_widths_need_two_samples :
  (forall a : R,
      [a].[1] = Err (IndexError 1 1)
      /\ [a].[-2] = Err (IndexError (-2) 1)
      /\ Np.wrap 1 (-2) = (1 - 2)%Z)
  /\ (forall (a : R) (mu sigma : Np.arg) (normalization : R),
        pixel_integrated_gaussian_numba [a] mu sigma None normalization
        = Err (IndexError 1 1))
  /\ (forall x : list R,
        (exists w, pixel_widths x None = Ok w) <-> (2 <= length x)%nat)
  /\ (forall (spec_wobs spec_R_fwhm : list R) (line_um line_flux velocity_sigma : R),
        (exists r, sample_gaussian_line_numba spec_wobs spec_R_fwhm line_um line_flux
                     velocity_sigma = Ok r)
        <-> (2 <= length spec_wobs)%nat).
Proof.
  split; [|split; [|split]].
  - intros a; repeat split.
  - intros a mu sigma normalization; unfold pixel_integrated_gaussian_numba.
    change (Np.ones_like [a]) with [1].
    destruct (times_single (Np.scale (sqrt 2) sigma) 1) as [s2dw ->].
    destruct (times_single mu 1) as [mux ->].
    reflexivity.
  - exact pixel_widths_none_ok.
  - intros; unfold sample_gaussian_line_numba.
    apply pixel_integrated_gaussian_none_ok; exact I.
Qed.

End PixelIntegratedGaussianClaims.

Lemma pixel_integrated_gaussian_value_witness :
  (forall (dx : option Np.arg) (w : list R),
      pixel_widths [0; 1; 2] dx = Ok w -> length w = 3%nat ->
      exists samp,
        pixel_integrated_gaussian_numba (rt := ReferenceRuntime.reals) [0; 1; 2]
          (Np.Scalar 1) (Np.Array [0.5; 0.6; 0.7]) dx 1 = Ok samp
        /\ length samp = 3%nat
        /\ nth 1 samp 0
           = (ReferenceRuntime.erf_integral ((1 - 1 + nth 1 w 0 / 2) / (sqrt 2 * 0.6))
              - ReferenceRuntime.erf_integral ((1 - 1 - nth 1 w 0 / 2) / (sqrt 2 * 0.6)))
             / 2 / nth 1 w 0 * 1)
  /\ (forall dx : Np.arg,
        conforms dx [0; 1; 2] ->
        exists samp,
          pixel_integrated_gaussian_numba (rt := ReferenceRuntime.reals) [0; 1; 2]
            (Np.Scalar 1) (Np.Array [0.5; 0.6; 0.7]) (Some dx) 1 = Ok samp
          /\ length samp = 3%nat
          /\ nth 1 samp 0
             = (ReferenceRuntime.erf_integral ((1 - 1 + entry dx 1 / 2) / (sqrt 2 * 0.6))
                - ReferenceRuntime.erf_integral ((1 - 1 - entry dx 1 / 2) / (sqrt 2 * 0.6)))
               / 2 / entry dx 1 * 1).
Proof.
  apply (pixel_integrated_gaussian_value (rt := ReferenceRuntime.reals)
           [0; 1; 2] 1 (Np.Array [0.5; 0.6; 0.7]) 1 (i := 1));
    simpl; auto.
Defined.

(** ** The two-pointer search *)

Section ClimbFacts.

Lemma climb_step (stop : Z) (test : Z -> bool) (k : Z) :
  climb stop test k
  = if test k && (k <? stop)%Z then climb stop test (k + 1) else k.
Proof.
  funelim (climb stop test k).
  - rewrite go; reflexivity.
  - rewrite e; reflexivity.
Qed.

Lemma climb_ge (stop : Z) (test : Z -> bool) (k : Z) : (k <= climb stop test k)%Z.
Proof. funelim (climb stop test k); rewrite <- ?Heqcall; lia. Qed.

Lemma climb_le (stop : Z) (test : Z -> bool) (k : Z) :
  (climb stop test k <= Z.max k stop)%Z.
Proof.
  funelim (climb stop test k); rewrite <- ?Heqcall; [|lia].
  pose proof (proj2 (andb_prop _ _ go)) as lt; apply Z.ltb_lt in lt; lia.
Qed.

(** The loop returns because its guard fails, not for lack of steps. *)
Lemma climb_done (stop : Z) (test : Z -> bool) (k : Z) :
  test (climb stop test k) && (climb stop test k <? stop)%Z = false.
Proof. funelim (climb stop test k); rewrite <- ?Heqcall; assumption. Qed.

Lemma climb_stay (stop : Z) (test : Z -> bool) (k : Z) :
  (stop <= k)%Z -> climb stop test k = k.
Proof.
  intros hk; rewrite climb_step.
  destruct (Z.ltb_spec k stop); [lia|]; rewrite andb_false_r; reflexivity.
Qed.

End ClimbFacts.

(** ** The logging monad *)

Section LogFacts.

Context {A B : Type}.

Lemma bind_lift_ok (a : A) (k : A -> logged B) : bind_log (lift (Ok a)) k = k a.
Proof. unfold bind_log, lift; simpl; destruct (k a); reflexivity. Qed.

Lemma bind_lift_err (e : error) (k : A -> logged B) :
  bind_log (lift (Err e)) k = ([], Err e).
Proof. reflexivity. Qed.

Lemma bind_tell (e : event) (k : unit -> logged B) :
  bind_log (tell e) k = (e :: fst (k tt), snd (k tt)).
Proof. reflexivity. Qed.

End LogFacts.

(** ** Invariants of the pixel loop *)

Section PixelLoopInvariant.

Context {rt : Runtime}.

Variables spec_wobs templ_wobs templ_flux dw : list R.
Variable nsig : R.

Let Nt : Z := Np.len templ_wobs.

Let loop := pixel_loop spec_wobs templ_wobs templ_flux dw nsig.

(** Every recorded window is within the bounds of [window_ok], from any
    state the loop head can be in. *)
Lemma pixel_loop_windows (idx : list Z) :
  forall (ilo ihi : Z) (resamp : list R),
    (0 <= ilo <= Nt - 1)%Z -> (1 <= ihi <= Nt)%Z ->
    Forall (window_ok Nt) (fst (loop idx ilo ihi resamp)).
Proof.
  unfold loop; induction idx as [|i rest IH]; intros ilo ihi resamp hlo hhi; simpl.
  - constructor.
  - destruct (spec_wobs.[i]) as [w|e]; [rewrite bind_lift_ok | constructor].
    destruct (dw.[i]) as [d|e]; [rewrite bind_lift_ok | constructor].
    fold Nt.
    set (lo1 := climb (Nt - 1) _ ilo).
    assert (hlo1 : (ilo <= lo1 <= Nt - 1)%Z).
    { split; [apply climb_ge|]. etransitivity; [apply climb_le|]; lia. }
    destruct (Z.eqb_spec lo1 0) as [h0|h0].
    + rewrite bind_tell; cbn [fst]; constructor; [exact I|].
      apply IH; lia.
    + rewrite bind_tell; cbn [fst]; constructor; [simpl; lia|].
      set (hi1 := climb Nt _ ihi).
      assert (hhi1 : (ihi <= hi1 <= Nt)%Z).
      { split; [apply climb_ge|]. etransitivity; [apply climb_le|]; lia. }
      destruct (Z.geb_spec (lo1 - 1) hi1) as [hge|hlt].
      * rewrite bind_tell; cbn [fst]; constructor; [simpl; lia|].
        destruct (templ_flux.[hi1]) as [v|e]; [rewrite bind_lift_ok | constructor].
        destruct (Np.setitem resamp i v) as [r|e]; [rewrite bind_lift_ok | constructor].
        apply IH; lia.
      * destruct (Z.eqb_spec (lo1 - 1) (Nt - 1)) as [hx|hx].
        -- rewrite bind_tell; cbn [fst]; repeat constructor.
        -- rewrite bind_tell; cbn [fst]; constructor; [exact I|].
           destruct (Np.broadcast2 _ _ _) as [fg|e]; [rewrite bind_lift_ok | constructor].
           destruct (Np.setitem resamp i _) as [r|e]; [rewrite bind_lift_ok | constructor].
           apply IH; lia.
Qed.

(** The guard of the [break] never holds: [ilo] has just been stepped
    back from at most [Nt - 1]. *)
Lemma pixel_loop_never_breaks (idx : list Z) :
  forall (ilo ihi : Z) (resamp : list R),
    (0 <= ilo <= Z.max 0 (Nt - 1))%Z ->
    Forall not_break (fst (loop idx ilo ihi resamp)).
Proof.
  unfold loop; induction idx as [|i rest IH]; intros ilo ihi resamp hlo; simpl.
  - constructor.
  - destruct (spec_wobs.[i]) as [w|e]; [rewrite bind_lift_ok | constructor].
    destruct (dw.[i]) as [d|e]; [rewrite bind_lift_ok | constructor].
    fold Nt.
    set (lo1 := climb (Nt - 1) _ ilo).
    assert (hlo1 : (ilo <= lo1 <= Z.max 0 (Nt - 1))%Z).
    { split; [apply climb_ge|]. etransitivity; [apply climb_le|]; lia. }
    destruct (Z.eqb_spec lo1 0) as [h0|h0].
    + rewrite bind_tell; cbn [fst]; constructor; [exact I|].
      apply IH; lia.
    + rewrite bind_tell; cbn [fst]; constructor; [exact I|].
      set (hi1 := climb Nt _ ihi).
      destruct (Z.geb_spec (lo1 - 1) hi1) as [hge|hlt].
      * rewrite bind_tell; cbn [fst]; constructor; [exact I|].
        destruct (templ_flux.[hi1]) as [v|e]; [rewrite bind_lift_ok | constructor].
        destruct (Np.setitem resamp i v) as [r|e]; [rewrite bind_lift_ok | constructor].
        apply IH; lia.
      * destruct (Z.eqb_spec (lo1 - 1) (Nt - 1)) as [hx|hx]; [lia|].
        rewrite bind_tell; cbn [fst]; constructor; [exact I|].
        destruct (Np.broadcast2 _ _ _) as [fg|e]; [rewrite bind_lift_ok | constructor].
        destruct (Np.setitem resamp i _) as [r|e]; [rewrite bind_lift_ok | constructor].
        apply IH; lia.
Qed.

End PixelLoopInvariant.

(** ** One turn of the pixel loop *)

Section PixelLoopSteps.

Context {rt : Runtime}.

Variables spec_wobs templ_wobs templ_flux dw : list R.
Variable nsig : R.

Let Nt : Z := Np.len templ_wobs.

Let loop := pixel_loop spec_wobs templ_wobs templ_flux dw nsig.

Variables (i : Z) (rest : list Z) (ilo ihi : Z) (resamp : list R) (w d : R).

Hypothesis read_w : spec_wobs.[i] = Ok w.
Hypothesis read_d : dw.[i] = Ok d.

Lemma pixel_loop_skip :
  climb (Nt - 1) (fun k => Np.peek templ_wobs k <? w - nsig * d) ilo = 0%Z ->
  loop (i :: rest) ilo ihi resamp
  = (Skipped i :: fst (loop rest 0%Z ihi resamp), snd (loop rest 0%Z ihi resamp)).
Proof.
  intros h0; unfold loop; cbn [pixel_loop].
  rewrite read_w, bind_lift_ok, read_d, bind_lift_ok.
  fold Nt; rewrite h0; cbn [Z.eqb].
  apply bind_tell.
Qed.

Variables lo1 hi1 : Z.

Hypothesis find_lo :
  climb (Nt - 1) (fun k => Np.peek templ_wobs k <? w - nsig * d) ilo = lo1.
Hypothesis find_hi :
  climb Nt (fun k => Np.peek templ_wobs k <? w + nsig * d) ihi = hi1.
Hypothesis found : lo1 <> 0%Z.

Lemma pixel_loop_integrate (fg r : list R) :
  (lo1 - 1 < hi1)%Z -> (lo1 - 1 <> Nt - 1)%Z ->
  Np.broadcast2 Rmult
    (Np.slice templ_flux (Some (lo1 - 1)%Z) (Some hi1))
    (map (fun l => exp (- (l - w) ^ 2 / 2 / d ^ 2) / sqrt (2 * PI * d ^ 2))
         (Np.slice templ_wobs (Some (lo1 - 1)%Z) (Some hi1))) = Ok fg ->
  Np.setitem resamp i
    (Np.trapz fg (Np.slice templ_wobs (Some (lo1 - 1)%Z) (Some hi1))) = Ok r ->
  loop (i :: rest) ilo ihi resamp
  = (BackStep i (lo1 - 1) ihi :: Integrated i (lo1 - 1) hi1
       :: fst (loop rest (lo1 - 1)%Z hi1 r),
     snd (loop rest (lo1 - 1)%Z hi1 r)).
Proof.
  intros hlt hx hfg hr; unfold loop; cbn [pixel_loop].
  rewrite read_w, bind_lift_ok, read_d, bind_lift_ok.
  fold Nt; rewrite find_lo, find_hi.
  destruct (Z.eqb_spec lo1 0); [contradiction|].
  rewrite bind_tell.
  destruct (Z.geb_spec (lo1 - 1) hi1); [lia|].
  destruct (Z.eqb_spec (lo1 - 1) (Nt - 1)); [contradiction|].
  rewrite bind_tell, hfg, bind_lift_ok, hr, bind_lift_ok.
  reflexivity.
Qed.

Lemma pixel_loop_nearest (v : R) (r : list R) :
  (lo1 - 1 >= hi1)%Z ->
  templ_flux.[hi1] = Ok v -> Np.setitem resamp i v = Ok r ->
  loop (i :: rest) ilo ihi resamp
  = (BackStep i (lo1 - 1) ihi :: Nearest i (lo1 - 1) hi1
       :: fst (loop rest (lo1 - 1)%Z hi1 r),
     snd (loop rest (lo1 - 1)%Z hi1 r)).
Proof.
  intros hge hv hr; unfold loop; cbn [pixel_loop].
  rewrite read_w, bind_lift_ok, read_d, bind_lift_ok.
  fold Nt; rewrite find_lo, find_hi.
  destruct (Z.eqb_spec lo1 0); [contradiction|].
  rewrite bind_tell.
  destruct (Z.geb_spec (lo1 - 1) hi1); [|lia].
  rewrite bind_tell, hv, bind_lift_ok, hr, bind_lift_ok.
  reflexivity.
Qed.

End PixelLoopSteps.

(** ** Claims about [resample_template_numba] *)

Section ResampleClaims.

Context {rt : Runtime}.

Lemma peek_nat (x : list R) (k : nat) :
  (k < length x)%nat -> Np.peek x (Z.of_nat k) = nth k x 0.
Proof.
  intros hk; unfold Np.peek.
  rewrite NpFacts.inside_nat, NpFacts.wrap_nat, Nat2Z.id by assumption; reflexivity.
Qed.

(** Whatever [fill_value] is, the output array starts as zeros. *)
Lemma initial_resamp_zero (spec_wobs : list R) (fill_value : R) :
  map (fun u => u * fill_value) (Np.zeros_like spec_wobs) = Np.zeros_like spec_wobs.
Proof.
  unfold Np.zeros_like; rewrite map_map; apply map_ext; intros; lra.
Qed.

Lemma sqrt_small (a : R) : 0 <= a <= 1 / 4 -> 0 <= sqrt a <= 1 / 2.
Proof.
  intros [h0 h1]; split; [apply sqrt_pos|].
  replace (1 / 2) with (sqrt (1 / 4)).
  - apply sqrt_le_1_alt; assumption.
  - replace (1 / 4) with ((1 / 2) * (1 / 2)) by lra.
    apply sqrt_square; lra.
Qed.

Example skipped_pixel_run :
  resample_template_run [1] [1000] [2; 3] [1; 1] 100 5 5 = ([Skipped 0], Ok [0]).
Proof.
  unfold resample_template_run, resample_dw.
  rewrite NpFacts.broadcast2_same by reflexivity.
  rewrite bind_lift_ok, initial_resamp_zero.
  cbn [map combine fst snd Np.zeros_like length].
  change (Np.range 0 (Np.len [1])) with [0%Z].
  set (d := sqrt _ * 1).
  assert (hd : 0 <= d) by (unfold d; pose proof (sqrt_pos ((100 / 3.0e5) ^ 2 + (1.0 / 2.35 / 1000) ^ 2)); lra).
  rewrite (pixel_loop_skip _ _ _ _ _ _ _ _ _ _ (w := 1) (d := d)); try reflexivity.
  rewrite climb_step.
  change (Np.peek [2; 3] 0) with 2.
  rewrite NpFacts.ltb_false by lra; reflexivity.
Qed.

Lemma kernel_pos (l w d : R) :
  d <> 0 -> 0 < exp (- (l - w) ^ 2 / 2 / d ^ 2) / sqrt (2 * PI * d ^ 2).
Proof.
  intros hd; apply Rdiv_lt_0_compat; [apply exp_pos|].
  apply sqrt_lt_R0.
  assert (0 < d ^ 2) by (destruct (Rdichotomy _ _ hd); nra).
  pose proof PI_RGT_0; nra.
Qed.

Example exhausted_template_run :
  exists r0 r1 : R,
    resample_template_run [10; 11] [1; 1] [1; 2; 3] [1; 1; 1] 100 1 0
    = ([BackStep 0 1 1; Integrated 0 1 3; BackStep 1 1 3; Integrated 1 1 3],
       Ok [r0; r1])
    /\ 0 < r0 /\ 0 < r1.
Proof.
  unfold resample_template_run, resample_dw.
  rewrite NpFacts.broadcast2_same by reflexivity.
  rewrite bind_lift_ok, initial_resamp_zero.
  cbn [map combine fst snd Np.zeros_like length].
  change (Np.range 0 (Np.len [10; 11])) with [0%Z; 1%Z].
  set (s := sqrt ((100 / 3.0e5) ^ 2 + (1.0 / 2.35 / 1) ^ 2)).
  assert (hs : 0 < s <= 1 / 2).
  { split; [apply sqrt_lt_R0; lra | apply sqrt_small; lra]. }
  set (templ := [1; 2; 3]).
  assert (lo : forall w d : R, 3 < w - 1 * d -> forall k, (0 <= k <= 2)%Z ->
             climb (Np.len templ - 1) (fun k => Np.peek templ k <? w - 1 * d) k = 2%Z).
  { intros w d hw k hk.
    assert (k = 0 \/ k = 1 \/ k = 2)%Z as [-> | [-> | ->]] by lia.
    - do 2 (rewrite climb_step; cbv beta).
      change (Np.peek templ 0) with 1; change (Np.peek templ (0 + 1)) with 2.
      rewrite !NpFacts.ltb_true by lra.
      rewrite climb_stay; reflexivity.
    - rewrite climb_step; cbv beta.
      change (Np.peek templ 1) with 2.
      rewrite !NpFacts.ltb_true by lra.
      rewrite climb_stay; reflexivity.
    - rewrite climb_stay; reflexivity. }
  assert (hi : forall w d : R, 3 < w + 1 * d -> forall k, (1 <= k <= 3)%Z ->
             climb (Np.len templ) (fun k => Np.peek templ k <? w + 1 * d) k = 3%Z).
  { intros w d hw k hk.
    assert (k = 1 \/ k = 2 \/ k = 3)%Z as [-> | [-> | ->]] by lia.
    - do 2 (rewrite climb_step; cbv beta).
      change (Np.peek templ 1) with 2; change (Np.peek templ (1 + 1)) with 3.
      rewrite !NpFacts.ltb_true by lra.
      rewrite climb_stay; reflexivity.
    - rewrite climb_step; cbv beta.
      change (Np.peek templ 2) with 3.
      rewrite !NpFacts.ltb_true by lra.
      rewrite climb_stay; reflexivity.
    - rewrite climb_stay; reflexivity. }
  do 2 eexists; split.
  - erewrite (@pixel_loop_integrate _ _ templ _ _ _ _ _ _ _ _ 10 (s * 10) _ _ 2%Z 3%Z);
      try first [ apply lo; [lra | lia] | apply hi; [lra | lia] | reflexivity | lia
                | intros ne; vm_compute in ne; discriminate ne ].
    erewrite (@pixel_loop_integrate _ _ templ _ _ _ _ _ _ _ _ 11 (s * 11) _ _ 2%Z 3%Z);
      try first [ apply lo; [lra | lia] | apply hi; [lra | lia] | reflexivity | lia
                | intros ne; vm_compute in ne; discriminate ne ].
  - change (Np.slice [1; 1; 1] (Some (2 - 1)%Z) (Some 3%Z)) with [1; 1].
    change (Np.slice templ (Some (2 - 1)%Z) (Some 3%Z)) with [2; 3].
    cbn [map combine fst snd Np.trapz].
    assert (h10 : s * 10 <> 0) by lra.
    assert (h11 : s * 11 <> 0) by lra.
    pose proof (kernel_pos 2 10 h10); pose proof (kernel_pos 3 10 h10).
    pose proof (kernel_pos 2 11 h11); pose proof (kernel_pos 3 11 h11).
    split; lra.
    Unshelve. all: reflexivity.
Qed.

Example nearest_neighbour_run :
  resample_template_run [5] [1] [0; 5; 5; 5] [7; 8; 9; 10] 100 (-1) 0
  = ([BackStep 0 2 1; Nearest 0 2 1], Ok [8]).
Proof.
  unfold resample_template_run, resample_dw.
  rewrite NpFacts.broadcast2_same by reflexivity.
  rewrite bind_lift_ok, initial_resamp_zero.
  cbn [map combine fst snd Np.zeros_like length].
  change (Np.range 0 (Np.len [5])) with [0%Z].
  set (s := sqrt ((100 / 3.0e5) ^ 2 + (1.0 / 2.35 / 1) ^ 2)).
  assert (hs : 0 < s <= 1 / 2).
  { split; [apply sqrt_lt_R0; lra | apply sqrt_small; lra]. }
  set (templ := [0; 5; 5; 5]).
  assert (lo : climb (Np.len templ - 1)
                 (fun k => Np.peek templ k <? 5 - -1 * (s * 5)) 0 = 3%Z).
  { do 3 (rewrite climb_step; cbv beta).
    change (Np.peek templ 0) with 0; change (Np.peek templ (0 + 1)) with 5;
      change (Np.peek templ (0 + 1 + 1)) with 5.
    rewrite !NpFacts.ltb_true by lra.
    rewrite climb_stay; reflexivity. }
  assert (hi : climb (Np.len templ)
                 (fun k => Np.peek templ k <? 5 + -1 * (s * 5)) 1 = 1%Z).
  { rewrite climb_step; cbv beta.
    change (Np.peek templ 1) with 5.
    rewrite NpFacts.ltb_false by lra; reflexivity. }
  erewrite (@pixel_loop_nearest _ _ templ _ _ _ _ _ _ _ _ 5 (s * 5) _ _ 3%Z 1%Z);
    try first [ exact lo | exact hi | reflexivity | lia ].
  Unshelve. all: reflexivity.
Qed.

Lemma resample_log_never_breaks
    (spec_wobs spec_R_fwhm templ_wobs templ_flux : list R)
    (velocity_sigma nsig fill_value : R) :
  Forall not_break
    (resample_template_log spec_wobs spec_R_fwhm templ_wobs templ_flux
       velocity_sigma nsig fill_value).
Proof.
  unfold resample_template_log, resample_template_run.
  destruct (resample_dw spec_wobs spec_R_fwhm velocity_sigma) as [dw|e];
    [rewrite bind_lift_ok | constructor].
  apply pixel_loop_never_breaks; lia.
Qed.

(** C1, evaluated where the code departs from it.  The template starts
    above the only pixel, so the pixel is skipped; with [fill_value = 5] it
    comes back as [0], the product [0 * fill_value] the output array is
    initialised with. *)
Theorem skipped_pixel_is_zero_not_fill_value :
  resample_template_numba [1] [1000] [2; 3] [1; 1] 100 5 5 = Ok [0]
  /\ resample_template_log [1] [1000] [2; 3] [1; 1] 100 5 5 = [Skipped 0]
  /\ forall (spec_wobs : list R) (fill_value : R),
       map (fun u => u * fill_value) (Np.zeros_like spec_wobs) = Np.zeros_like spec_wobs.
Proof.
  unfold resample_template_numba, resample_template_log.
  rewrite skipped_pixel_run; repeat split.
  exact initial_resamp_zero.
Qed.

(** C3, evaluated where the code departs from it.  On a template that ends
    below both pixels the search brings [ilo] to the last template index
    [Nt - 1 = 2] at the first pixel; the loop steps back, integrates, goes on
    to the second pixel, and both outputs are positive although
    [fill_value = 0].  In general the [break] is never taken. *)
Theorem exhausted_template_is_integrated :
  (forall (spec_wobs spec_R_fwhm templ_wobs templ_flux : list R)
          (velocity_sigma nsig fill_value : R),
      Forall not_break
        (resample_template_log spec_wobs spec_R_fwhm templ_wobs templ_flux
           velocity_sigma nsig fill_value))
  /\ exists r0 r1 : R,
       resample_template_numba [10; 11] [1; 1] [1; 2; 3] [1; 1; 1] 100 1 0 = Ok [r0; r1]
       /\ resample_template_log [10; 11] [1; 1] [1; 2; 3] [1; 1; 1] 100 1 0
          = [BackStep 0 1 1; Integrated 0 1 3; BackStep 1 1 3; Integrated 1 1 3]
       /\ 0 < r0 /\ 0 < r1.
Proof.
  split; [exact resample_log_never_breaks|].
  destruct exhausted_template_run as (r0 & r1 & hrun & h0 & h1).
  exists r0, r1; unfold resample_template_numba, resample_template_log.
  rewrite hrun; repeat split; assumption.
Qed.

(** C9. With at least one template sample, at every point where the loop
    has just stepped [ilo] back, [0 <= ilo <= Nt - 2] and [1 <= ihi <= Nt];
    whenever the branch [ilo >= ihi] runs, [ihi <= Nt - 2], and the read
    [templ_flux[ihi]] succeeds. *)
Theorem resample_windows_in_bounds
    (spec_wobs spec_R_fwhm templ_wobs templ_flux : list R)
    (velocity_sigma nsig fill_value : R) :
  (1 <= length templ_wobs)%nat ->
  Forall (window_ok (Np.len templ_wobs))
    (resample_template_log spec_wobs spec_R_fwhm templ_wobs templ_flux
       velocity_sigma nsig fill_value)
  /\ (length templ_flux = length templ_wobs ->
      forall i ilo ihi : Z,
        In (Nearest i ilo ihi)
           (resample_template_log spec_wobs spec_R_fwhm templ_wobs templ_flux
              velocity_sigma nsig fill_value) ->
        exists v, templ_flux.[ihi] = Ok v).
Proof.
  intros hNt.
  assert (hall : Forall (window_ok (Np.len templ_wobs))
                   (resample_template_log spec_wobs spec_R_fwhm templ_wobs templ_flux
                      velocity_sigma nsig fill_value)).
  { unfold resample_template_log, resample_template_run.
    destruct (resample_dw spec_wobs spec_R_fwhm velocity_sigma) as [dw|e];
      [rewrite bind_lift_ok | constructor].
    apply pixel_loop_windows; unfold Np.len; lia. }
  split; [exact hall|].
  intros hlen i ilo ihi hin.
  rewrite Forall_forall in hall; specialize (hall _ hin); simpl in hall.
  apply NpFacts.getitem_ok, NpFacts.inside_iff.
  rewrite hlen; unfold Np.len in hall; lia.
Qed.

(** C2, as the code has it: the constant is [3.0e5].  For the resampler
    the width of pixel [i] is
    [spec_wobs[i] * sqrt((velocity_sigma / 300000)^2 + (1 / (2.35 spec_R_fwhm[i]))^2)];
    for the line sampler it is the same expression at [line_um] and at the
    resolution interpolated at [line_um], and it is the [sigma] handed to
    [pixel_integrated_gaussian_numba]. *)
Theorem kernel_width_uses_3e5 (spec_wobs spec_R_fwhm : list R)
    (line_um line_flux velocity_sigma : R) :
  length spec_R_fwhm = length spec_wobs ->
  (exists dw,
      resample_dw spec_wobs spec_R_fwhm velocity_sigma = Ok dw
      /\ length dw = length spec_wobs
      /\ forall i, (i < length spec_wobs)%nat ->
           nth i dw 0
           = kernel_width 300000 (nth i spec_wobs 0) (nth i spec_R_fwhm 0) velocity_sigma)
  /\ line_dw spec_wobs spec_R_fwhm line_um velocity_sigma
     = kernel_width 300000 line_um (np_interp line_um spec_wobs spec_R_fwhm) velocity_sigma
  /\ sample_gaussian_line_numba spec_wobs spec_R_fwhm line_um line_flux velocity_sigma
     = pixel_integrated_gaussian_numba spec_wobs (Np.Scalar line_um)
         (Np.Scalar (kernel_width 300000 line_um
                       (np_interp line_um spec_wobs spec_R_fwhm) velocity_sigma))
         None line_flux.
Proof.
  intros hlen.
  assert (width : forall w r : R,
             sqrt ((velocity_sigma / 3.0e5) ^ 2 + (1.0 / 2.35 / r) ^ 2) * w
             = kernel_width 300000 w r velocity_sigma).
  { intros w r; unfold kernel_width; rewrite Rmult_comm; do 3 f_equal.
    - f_equal; lra.
    - f_equal; unfold Rdiv; rewrite Rinv_mult; lra. }
  split; [|split].
  - unfold resample_dw.
    rewrite NpFacts.broadcast2_same by (rewrite length_map; exact hlen).
    eexists; split; [reflexivity|]; split.
    + rewrite NpFacts.length_zip; rewrite length_map; assumption.
    + intros i hi.
      rewrite NpFacts.nth_zip by (rewrite length_map; lia).
      rewrite NpFacts.nth_map0 by lia.
      apply width.
  - apply width.
  - unfold sample_gaussian_line_numba, line_dw; rewrite width; reflexivity.
Qed.

End ResampleClaims.

(** The width with [c_km_s = 299800] is not the one the code computes. *)
Lemma kernel_width_299800_refuted :
  resample_dw [1] [1] 100 <> Ok [kernel_width 299800 1 1 100].
Proof.
  unfold resample_dw, kernel_width.
  rewrite NpFacts.broadcast2_same by reflexivity.
  cbn [map combine fst snd].
  intros same; injection same as same.
  rewrite Rmult_1_r, Rmult_1_l in same.
  apply sqrt_inj in same.
  - lra.
  - lra.
  - lra.
Qed.

Lemma kernel_width_uses_3e5_witness :
  (exists dw,
      resample_dw [1; 2] [1000; 2000] 100 = Ok dw
      /\ length dw = 2%nat
      /\ forall i, (i < 2)%nat ->
           nth i dw 0 = kernel_width 300000 (nth i [1; 2] 0) (nth i [1000; 2000] 0) 100)
  /\ line_dw (rt := ReferenceRuntime.reals) [1; 2] [1000; 2000] 1.5 100
     = kernel_width 300000 1.5 (ReferenceRuntime.interp_clamped 1.5 [1; 2] [1000; 2000]) 100
  /\ sample_gaussian_line_numba (rt := ReferenceRuntime.reals) [1; 2] [1000; 2000] 1.5 1 100
     = pixel_integrated_gaussian_numba (rt := ReferenceRuntime.reals) [1; 2] (Np.Scalar 1.5)
         (Np.Scalar (kernel_width 300000 1.5
                       (ReferenceRuntime.interp_clamped 1.5 [1; 2] [1000; 2000]) 100))
         None 1.
Proof.
  apply (kernel_width_uses_3e5 (rt := ReferenceRuntime.reals) [1; 2] [1000; 2000] 1.5 1 100).
  reflexivity.
Defined.

Lemma resample_windows_in_bounds_witness :
  Forall (window_ok 4)
    (resample_template_log (rt := ReferenceRuntime.reals)
       [5] [1] [0; 5; 5; 5] [7; 8; 9; 10] 100 (-1) 0)
  /\ (length [7; 8; 9; 10] = length [0; 5; 5; 5] ->
      forall i ilo ihi : Z,
        In (Nearest i ilo ihi)
           (resample_template_log (rt := ReferenceRuntime.reals)
              [5] [1] [0; 5; 5; 5] [7; 8; 9; 10] 100 (-1) 0) ->
        exists v, [7; 8; 9; 10].[ihi] = Ok v).
Proof.
  apply (resample_windows_in_bounds (rt := ReferenceRuntime.reals)
           [5] [1] [0; 5; 5; 5] [7; 8; 9; 10] 100 (-1) 0).
  simpl; lia.
Defined.

(** ** The IGM transmission *)

Module IgmFacts.

Ltac table :=
  cbv [Igm.ALAM Igm.ALAF1 Igm.ALAF2 Igm.ALAF3 Igm.ADLA1 Igm.ADLA2 Igm._LAF Igm._DLA
       Igm.transpose map seq nth hd length].

Lemma ALAM_range : Forall (fun lsj => 912 < lsj < 1216) Igm.ALAM.
Proof. table; repeat (constructor; [lra|]); constructor. Qed.

Lemma ALAF1_pos : Forall (fun c => 0 <= c) Igm.ALAF1.
Proof. table; repeat (constructor; [lra|]); constructor. Qed.

Lemma ALAF2_pos : Forall (fun c => 0 <= c) Igm.ALAF2.
Proof. table; repeat (constructor; [lra|]); constructor. Qed.

Lemma ALAF3_pos : Forall (fun c => 0 <= c) Igm.ALAF3.
Proof. table; repeat (constructor; [lra|]); constructor. Qed.

Lemma ADLA1_pos : Forall (fun c => 0 <= c) Igm.ADLA1.
Proof. table; repeat (constructor; [lra|]); constructor. Qed.

Lemma ADLA2_pos : Forall (fun c => 0 <= c) Igm.ADLA2.
Proof. table; repeat (constructor; [lra|]); constructor. Qed.

Lemma nth_nonneg (l : list R) (j : nat) : Forall (fun c => 0 <= c) l -> 0 <= nth j l 0.
Proof.
  intros hl; revert j; induction hl as [|a l ha hl IH]; intros [|j]; simpl;
    try lra; apply IH.
Qed.

Lemma enumerate_snd (l : list R) (j : nat) : map snd (Igm.enumerate j l) = l.
Proof. revert j; induction l as [|a l IH]; intros j; simpl; [|rewrite IH]; reflexivity. Qed.

Lemma geb_of_ltb (a b : R) : (a <? b) = false -> (a >=? b) = true.
Proof.
  unfold Np.geb, Np.leb, Np.ltb.
  destruct (Rlt_dec a b); [discriminate|]; intros _.
  destruct (Rle_dec b a); [reflexivity | lra].
Qed.

Lemma series_row_terms (z wi tau : R) (row : nat * R) :
  Igm.series_row z wi tau row = tau + forest_term z wi row + damped_term z wi row.
Proof.
  unfold Igm.series_row, forest_term, damped_term, forest_coefficient, forest_exponent,
    damped_coefficient, damped_exponent, Igm._pow, Igm._powi, Igm.z1LAF, Igm.z2LAF, Igm.z1DLA.
  destruct row as [j lsj]; cbn [fst snd].
  replace (1.0 + 2.0) with (1 + 2.0) by lra.
  destruct (wi <? lsj * (1 + z)); [|lra].
  destruct (wi <? lsj * (1 + 2.0));
    (destruct (wi <? lsj * (1 + 1.2)) eqn:first; [reflexivity|];
     rewrite (geb_of_ltb _ _ first); cbn [andb];
     destruct (wi <? lsj * (1 + 4.7)); reflexivity).
Qed.

Lemma fold_series (z wi : R) (rows : list (nat * R)) (tau : R) :
  fold_left (Igm.series_row z wi) rows tau
  = tau + total (map (fun row => forest_term z wi row + damped_term z wi row) rows).
Proof.
  revert tau; induction rows as [|row rows IH]; intros tau; simpl; [lra|].
  rewrite IH, series_row_terms; unfold total; lra.
Qed.

(** The loop over [wobs] touches [tau[i]] in turn [i] only. *)
Lemma tau_loop_from (z : R) (rest : list R) :
  forall done : list R,
    fold_left
      (fun tau iw => Np.update tau (fst iw) (Igm.accumulate z (snd iw) (nth (fst iw) tau 0)))
      (Igm.enumerate (length done) rest) (done ++ Np.zeros_like rest)
    = done ++ map (fun wi => Igm.accumulate z wi 0) rest.
Proof.
  induction rest as [|wi rest IH]; intros done; simpl; [reflexivity|].
  rewrite nth_middle.
  replace (Np.update (done ++ 0 :: Np.zeros_like rest) (length done) (Igm.accumulate z wi 0))
    with ((done ++ [Igm.accumulate z wi 0]) ++ Np.zeros_like rest).
  - replace (S (length done)) with (length (done ++ [Igm.accumulate z wi 0]))
      by (rewrite length_app; simpl; lia).
    rewrite IH, <- app_assoc; reflexivity.
  - rewrite <- app_assoc; simpl.
    induction done as [|a done IHd]; simpl; [reflexivity | f_equal; exact IHd].
Qed.

Lemma tau_loop_map (z : R) (wobs : list R) :
  Igm.tau_loop z wobs (Np.zeros_like wobs) = map (fun wi => Igm.accumulate z wi 0) wobs.
Proof. exact (tau_loop_from z wobs []). Qed.

Lemma tau_loop_nth (z : R) (wobs : list R) (i : nat) :
  (i < length wobs)%nat ->
  nth i (Igm.tau_loop z wobs (Np.zeros_like wobs)) 0 = Igm.accumulate z (nth i wobs 0) 0.
Proof.
  intros hi; rewrite tau_loop_map.
  rewrite (nth_indep _ 0 (Igm.accumulate z 0 0)) by (rewrite length_map; assumption).
  apply (map_nth (fun wi => Igm.accumulate z wi 0)).
Qed.

Lemma compute_igm_nth (z : R) (wobs : list R) (scale_tau : R) (i : nat) :
  (i < length wobs)%nat ->
  nth i (Igm.compute_igm z wobs scale_tau) 0
  = exp (- scale_tau * Igm.accumulate z (nth i wobs 0) 0).
Proof.
  intros hi; unfold Igm.compute_igm; rewrite tau_loop_map.
  rewrite (nth_indep _ 0 (exp (- scale_tau * Igm.accumulate z 0 0)))
    by (rewrite !length_map; assumption).
  rewrite (map_nth (fun t => exp (- scale_tau * t))).
  rewrite (map_nth (fun wi => Igm.accumulate z wi 0)); reflexivity.
Qed.

End IgmFacts.

Section IgmBounds.

Lemma total_le (A : Type) (f g : A -> R) (l : list A) :
  Forall (fun a => f a <= g a) l -> total (map f l) <= total (map g l).
Proof. induction 1; simpl; lra. Qed.

Lemma total_nonneg (A : Type) (f : A -> R) (l : list A) :
  Forall (fun a => 0 <= f a) l -> 0 <= total (map f l).
Proof. induction 1; simpl; lra. Qed.

Lemma rows_of_ALAM (P : R -> Prop) (j : nat) (l : list R) :
  Forall P l -> Forall (fun row => P (snd row)) (Igm.enumerate j l).
Proof. intros hl; revert j; induction hl; intros j; simpl; constructor; auto. Qed.

Lemma Rpower_le_1 (x e : R) : 0 < x <= 1 -> 0 <= e -> Rpower x e <= 1.
Proof.
  intros hx he.
  apply Rle_trans with (Rpower 1 e); [apply Rle_Rpower_l; lra|].
  right; unfold Rpower; rewrite ln_1, Rmult_0_r; apply exp_0.
Qed.

Lemma pow_le_1 (x : R) (n : nat) : 0 <= x <= 1 -> x ^ n <= 1.
Proof. intros hx; rewrite <- (pow1 n); apply pow_incr; assumption. Qed.

Lemma forest_exponent_pos (wi lsj : R) : 0 <= forest_exponent wi lsj.
Proof.
  unfold forest_exponent.
  destruct (wi <? lsj * (1 + 1.2)); [lra|]; destruct (wi <? lsj * (1 + 4.7)); lra.
Qed.

Lemma forest_coefficient_range (wi lsj : R) (j : nat) :
  0 <= forest_coefficient wi lsj j
       <= nth j Igm.ALAF1 0 + nth j Igm.ALAF2 0 + nth j Igm.ALAF3 0.
Proof.
  pose proof (IgmFacts.nth_nonneg j IgmFacts.ALAF1_pos).
  pose proof (IgmFacts.nth_nonneg j IgmFacts.ALAF2_pos).
  pose proof (IgmFacts.nth_nonneg j IgmFacts.ALAF3_pos).
  unfold forest_coefficient.
  destruct (wi <? lsj * (1 + 1.2)); [lra|]; destruct (wi <? lsj * (1 + 4.7)); lra.
Qed.

Lemma damped_coefficient_range (wi lsj : R) (j : nat) :
  0 <= damped_coefficient wi lsj j <= nth j Igm.ADLA1 0 + nth j Igm.ADLA2 0.
Proof.
  pose proof (IgmFacts.nth_nonneg j IgmFacts.ADLA1_pos).
  pose proof (IgmFacts.nth_nonneg j IgmFacts.ADLA2_pos).
  unfold damped_coefficient.
  destruct (wi <? lsj * (1 + 2.0)); lra.
Qed.

Lemma forest_term_nonneg (z wi : R) (row : nat * R) : 0 <= forest_term z wi row.
Proof.
  unfold forest_term.
  destruct (wi <? snd row * (1 + z)); [|lra].
  apply Rmult_le_pos; [apply forest_coefficient_range|].
  left; apply exp_pos.
Qed.

Lemma damped_term_nonneg (z wi : R) (row : nat * R) :
  0 <= wi -> 0 < snd row -> 0 <= damped_term z wi row.
Proof.
  intros hwi hls; unfold damped_term.
  destruct (wi <? snd row * (1 + z)); [|lra].
  apply Rmult_le_pos; [apply damped_coefficient_range|].
  apply pow_le, Rmult_le_pos; [assumption | left; apply Rinv_0_lt_compat; assumption].
Qed.

(** Redward of the Lyman limit only the series terms contribute, and they
    are not negative. *)
Lemma accumulate_nonneg (z wi : R) :
  0 < z -> 911.8 * (1 + z) <= wi -> 0 <= Igm.accumulate z wi 0.
Proof.
  intros hz hwi; unfold Igm.accumulate.
  destruct (wi >? 1300.0 * (1 + z)); [lra|].
  unfold Igm.lyman_continuum, Igm.lamL.
  rewrite NpFacts.ltb_false by assumption.
  unfold Igm.lyman_series; rewrite IgmFacts.fold_series, Rplus_0_l.
  apply total_nonneg.
  assert (hpos : 0 <= wi) by nra.
  eapply Forall_impl; [|exact (rows_of_ALAM 0 IgmFacts.ALAM_range)].
  intros row hrow; cbv beta in hrow.
  pose proof (forest_term_nonneg z wi row).
  pose proof (damped_term_nonneg z row hpos); lra.
Qed.

(** Blueward of every line, and below them all, the series adds little. *)
Lemma series_small (z wi : R) : 0 < wi <= 912 -> Igm.lyman_series z wi 0 <= 0.05.
Proof.
  intros hwi; unfold Igm.lyman_series; rewrite IgmFacts.fold_series, Rplus_0_l.
  pose (cap := fun row : nat * R =>
                 nth (fst row) Igm.ALAF1 0 + nth (fst row) Igm.ALAF2 0
                 + nth (fst row) Igm.ALAF3 0 + nth (fst row) Igm.ADLA1 0
                 + nth (fst row) Igm.ADLA2 0).
  apply Rle_trans with (total (map cap (Igm.enumerate 0 Igm.ALAM))).
  - apply total_le.
    eapply Forall_impl; [|exact (rows_of_ALAM 0 IgmFacts.ALAM_range)].
    intros [j lsj] hrow; cbn [snd] in hrow.
    assert (hx : 0 < wi / lsj <= 1).
    { split; [apply Rdiv_lt_0_compat; lra|].
      apply Rmult_le_reg_r with lsj; [lra|].
      unfold Rdiv; rewrite Rmult_assoc, Rinv_l by lra; lra. }
    pose proof (forest_coefficient_range wi lsj j) as hf.
    pose proof (damped_coefficient_range wi lsj j) as hd.
    pose proof (Rpower_le_1 hx (forest_exponent_pos wi lsj)) as hp.
    assert (hq : (wi / lsj) ^ damped_exponent wi lsj <= 1) by (apply pow_le_1; lra).
    assert (hq0 : 0 <= (wi / lsj) ^ damped_exponent wi lsj) by (apply pow_le; lra).
    assert (hp0 : 0 < Rpower (wi / lsj) (forest_exponent wi lsj)) by apply exp_pos.
    unfold cap, forest_term, damped_term; cbn [fst snd].
    destruct (wi <? lsj * (1 + z)); nra.
  - unfold cap; cbv [Igm.enumerate fst snd]; IgmFacts.table; unfold total; simpl fold_right.
    lra.
Qed.

Lemma Rpower_nat (x : R) (n : nat) : 0 < x -> Rpower x (INR n) = x ^ n.
Proof. intros hx; apply Rpower_pow; assumption. Qed.

(** [(1/1024) ** -0.3 = 8] *)
Lemma Rpower_1024 : Rpower (/ 1024) (-3e-1) = 8.
Proof.
  replace (/ 1024) with (Rpower 2 (- INR 10)).
  - rewrite Rpower_mult.
    replace (- INR 10 * -3e-1) with (INR 3) by (simpl; lra).
    rewrite Rpower_nat by lra; lra.
  - rewrite Rpower_Ropp, Rpower_nat by lra; f_equal; lra.
Qed.

Lemma Rpower_2_23 : 4 <= Rpower 2 2.3.
Proof.
  replace 4 with (Rpower 2 (INR 2)) by (rewrite Rpower_nat by lra; lra).
  apply Rle_Rpower; simpl; lra.
Qed.

(** The optical depth the code accumulates at [z = 1] for the wavelength
    [911.8 / 1024] is negative. *)
Lemma negative_optical_depth : Igm.accumulate 1 (911.8 / 1024) 0 < 0.
Proof.
  unfold Igm.accumulate.
  unfold Np.gtb; rewrite NpFacts.ltb_false by lra.
  pose proof (series_small 1 (wi := 911.8 / 1024)) as hs.
  assert (hs' : Igm.lyman_series 1 (911.8 / 1024) 0 <= 0.05) by (apply hs; lra).
  clear hs; revert hs'; generalize (Igm.lyman_series 1 (911.8 / 1024) 0); intros t ht.
  unfold Igm.lyman_continuum, Igm.lamL, Igm.z1DLA, Igm.z1LAF, Igm._pow, Igm._powi.
  rewrite !NpFacts.ltb_true by lra.
  replace (911.8 / 1024 / 911.8) with (/ 1024) by lra.
  rewrite Rpower_1024.
  replace (1 + 1) with 2 by lra.
  pose proof Rpower_2_23.
  assert (Rpower (/ 1024) 1.2 <= 1) by (apply Rpower_le_1; lra).
  assert (0 < Rpower 2 (-9e-1) * Rpower (/ 1024) 2.1)
    by (apply Rmult_lt_0_compat; apply exp_pos).
  assert (0 <= (/ 1024) ^ 2) by (apply pow_le; lra).
  lra.
Qed.

(** At [z = 0.1] the wavelength of Lyman alpha is absorbed by the first
    row of the table alone, and its optical depth is positive. *)
Lemma positive_optical_depth : 0 < Igm.accumulate 0.1 1215.670 0.
Proof.
  unfold Igm.accumulate, Np.gtb; rewrite NpFacts.ltb_false by lra.
  unfold Igm.lyman_continuum, Igm.lamL; rewrite NpFacts.ltb_false by lra.
  unfold Igm.lyman_series; rewrite IgmFacts.fold_series, Rplus_0_l.
  assert (hall : Forall (fun row => 0 <= forest_term 0.1 1215.670 row
                                         + damped_term 0.1 1215.670 row)
                   (Igm.enumerate 0 Igm.ALAM)).
  { eapply Forall_impl; [|exact (rows_of_ALAM 0 IgmFacts.ALAM_range)].
    intros row hrow; cbv beta in hrow.
    pose proof (forest_term_nonneg 0.1 1215.670 row).
    pose proof (damped_term_nonneg 0.1 row (wi := 1215.670)); lra. }
  change (Igm.enumerate 0 Igm.ALAM)
    with ((0%nat, 1215.670) :: Igm.enumerate 1 (tl Igm.ALAM)) in *.
  pose proof (total_nonneg _ (Forall_inv_tail hall)) as hrows.
  assert (hfirst : 0 < forest_term 0.1 1215.670 (0%nat, 1215.670)).
  { unfold forest_term, forest_coefficient; cbn [fst snd].
    rewrite !NpFacts.ltb_true by lra.
    change (nth 0 Igm.ALAF1 0) with 1.68976e-02.
    apply Rmult_lt_0_compat; [lra | apply exp_pos]. }
  assert (hdamped : 0 <= damped_term 0.1 1215.670 (0%nat, 1215.670))
    by (apply damped_term_nonneg; cbn [snd]; lra).
  cbn [map]; unfold total in *; cbn [fold_right]; lra.
Qed.

End IgmBounds.

(** ** The optical depth at and above the rest-frame Lyman limit *)

Section IgmContinuum.

Lemma ln_le_pred (w : R) : 0 < w -> ln w <= w - 1.
Proof.
  intros hw.
  pose proof (exp_ineq1_le (w - 1)) as h.
  replace (1 + (w - 1)) with w in h by lra.
  destruct h as [h|h].
  - left; rewrite <- (ln_exp (w - 1)); apply ln_increasing; assumption.
  - right; rewrite h at 1; apply ln_exp.
Qed.

(** [y ** 0.3 <= 0.7 + 0.3 y] *)
Lemma Rpower_03_le (y : R) : 0 < y -> Rpower y 0.3 <= 0.7 + 0.3 * y.
Proof.
  intros hy.
  set (m := 0.7 + 0.3 * y).
  assert (hm : 0 < m) by (unfold m; lra).
  assert (hym : 0 < y / m) by (apply Rdiv_lt_0_compat; assumption).
  assert (him : 0 < / m) by (apply Rinv_0_lt_compat; assumption).
  pose proof (ln_le_pred hym) as h1.
  pose proof (ln_le_pred him) as h2.
  unfold Rdiv in h1; rewrite ln_mult in h1 by assumption.
  rewrite ln_Rinv in h1, h2 by assumption.
  assert (hsum : 0.3 * (y * / m) + 0.7 * / m = 1).
  { unfold m; field; lra. }
  assert (hln : 0.3 * ln y <= ln m) by lra.
  unfold Rpower.
  rewrite <- (exp_ln m hm).
  destruct hln as [hln|hln]; [left; apply exp_increasing; assumption | right; rewrite hln; reflexivity].
Qed.

Lemma Rpower_ge_pow (r e : R) (n : nat) : 1 <= r -> INR n <= e -> r ^ n <= Rpower r e.
Proof.
  intros hr he; rewrite <- Rpower_pow by lra; apply Rle_Rpower; assumption.
Qed.

(** For a base below 1 a larger exponent gives a smaller power. *)
Lemma Rpower_ge_pow_below (r e : R) (n : nat) :
  0 < r <= 1 -> e <= INR n -> r ^ n <= Rpower r e.
Proof.
  intros hr he; rewrite <- Rpower_pow by lra.
  pose proof (ln_le_pred (proj1 hr)) as hln.
  assert (h : INR n * ln r <= e * ln r) by nra.
  unfold Rpower.
  destruct h as [h|h]; [left; apply exp_increasing; assumption | right; rewrite h; reflexivity].
Qed.

Lemma ltb_false_le (a b : R) : (a <? b) = false -> b <= a.
Proof.
  intros h; apply Rnot_lt_le; intros c.
  apply NpFacts.ltb_iff in c; congruence.
Qed.

(** The Lyman-alpha row alone: wherever the line applies at or above the
    rest-frame Lyman limit, its forest term is at least 0.009. *)
Lemma first_row_absorbs (z wi : R) :
  911.8 <= wi < 1215.670 * (1 + z) -> 0.009 <= forest_term z wi (0%nat, 1215.670).
Proof.
  intros [hlo hhi].
  unfold forest_term, forest_coefficient, forest_exponent; cbn [fst snd].
  rewrite NpFacts.ltb_true by assumption.
  change (nth 0 Igm.ALAF1 0) with 1.68976e-02.
  change (nth 0 Igm.ALAF2 0) with 2.35379e-03.
  change (nth 0 Igm.ALAF3 0) with 1.02611e-04.
  set (r := wi / 1215.670).
  destruct (wi <? 1215.670 * (1 + 1.2)) eqn:h1.
  - assert (hr : 0.75 <= r) by (unfold r; lra).
    assert (0.75 ^ 2 <= Rpower r 1.2).
    { apply Rle_trans with (Rpower 0.75 1.2).
      - apply Rpower_ge_pow_below; simpl; lra.
      - apply Rle_Rpower_l; lra. }
    lra.
  - apply ltb_false_le in h1.
    destruct (wi <? 1215.670 * (1 + 4.7)) eqn:h2.
    + assert (hr : 2.2 <= r) by (unfold r; lra).
      assert (2.2 ^ 3 <= Rpower r 3.7).
      { apply Rle_trans with (r ^ 3).
        - apply pow_incr; lra.
        - apply Rpower_ge_pow; simpl; lra. }
      lra.
    + apply ltb_false_le in h2.
      assert (hr : 5.7 <= r) by (unfold r; lra).
      assert (5.7 ^ 5 <= Rpower r 5.5).
      { apply Rle_trans with (r ^ 5).
        - apply pow_incr; lra.
        - apply Rpower_ge_pow; simpl; lra. }
      lra.
Qed.

Lemma series_absorbs (z wi : R) :
  911.8 <= wi < 1215.670 * (1 + z) -> 0.009 <= Igm.lyman_series z wi 0.
Proof.
  intros hwi.
  assert (hpos : 0 <= wi) by lra.
  unfold Igm.lyman_series; rewrite IgmFacts.fold_series, Rplus_0_l.
  assert (hall : Forall (fun row => 0 <= forest_term z wi row + damped_term z wi row)
                   (Igm.enumerate 0 Igm.ALAM)).
  { eapply Forall_impl; [|exact (rows_of_ALAM 0 IgmFacts.ALAM_range)].
    intros row hrow; cbv beta in hrow.
    pose proof (forest_term_nonneg z wi row).
    pose proof (damped_term_nonneg z row hpos); lra. }
  change (Igm.enumerate 0 Igm.ALAM)
    with ((0%nat, 1215.670) :: Igm.enumerate 1 (tl Igm.ALAM)) in *.
  pose proof (total_nonneg _ (Forall_inv_tail hall)) as hrows.
  pose proof (first_row_absorbs hwi) as hfirst.
  assert (hdamped : 0 <= damped_term z wi (0%nat, 1215.670))
    by (apply damped_term_nonneg; cbn [snd]; lra).
  cbn [map]; unfold total in *; cbn [fold_right]; lra.
Qed.

(** The damped-system continuum term of the first regime (source lines
    388-393), with [a = 1 + z] and [x = wi / 911.8]: by
    [(a / x) ** 0.3 <= 0.7 + 0.3 a / x] it is at least [- 1e-5 a ** 2]. *)
Lemma continuum_damped_low (a x : R) :
  0 < x <= a -> a <= 6 * x ->
  - 1e-5 * a ^ 2
  <= 0.2113 * a ^ 2 - 0.07661 * Rpower a 2.3 * Rpower x (-3e-1) - 0.1347 * x ^ 2.
Proof.
  intros hx ha.
  assert (hprod : Rpower a 2.3 * Rpower x (-3e-1) = a ^ 2 * Rpower (a / x) 0.3).
  { replace 2.3 with (INR 2 + 0.3) by (simpl; lra).
    rewrite Rpower_plus, Rpower_pow by lra.
    rewrite Rmult_assoc; f_equal.
    unfold Rdiv; rewrite <- Rpower_mult_distr by (try apply Rinv_0_lt_compat; lra).
    f_equal; unfold Rpower; rewrite ln_Rinv by lra; f_equal; lra. }
  rewrite Rmult_assoc, hprod.
  set (y := a / x).
  assert (hy : 1 <= y <= 6).
  { unfold y; split.
    - apply Rmult_le_reg_r with x; [lra|].
      unfold Rdiv; rewrite Rmult_assoc, Rinv_l by lra; lra.
    - apply Rmult_le_reg_r with x; [lra|].
      unfold Rdiv; rewrite Rmult_assoc, Rinv_l by lra; lra. }
  assert (hax : a = y * x) by (unfold y; field; lra).
  pose proof (@Rpower_03_le y ltac:(lra)) as hB.
  assert (hB0 : 0 < Rpower y 0.3) by apply exp_pos.
  revert hB hB0; generalize (Rpower y 0.3); intros B hB hB0.
  rewrite hax.
  assert (h1 : 0 <= (y - 1) * (-0.022983 * y ^ 2 + 0.1347 * y + 0.1347))
    by (apply Rmult_le_pos; nra).
  assert (h2 : 0 <= y ^ 2 * (0.7 + 0.3 * y - B)) by (apply Rmult_le_pos; nra).
  assert (h3 : 0 <= y ^ 2 * (0.21131 - 0.07661 * B) - 0.1347) by nra.
  assert (h4 : 0 <= x ^ 2 * (y ^ 2 * (0.21131 - 0.07661 * B) - 0.1347))
    by (apply Rmult_le_pos; nra).
  nra.
Qed.

(** The forest continuum term of the first regime (source lines 416-420) is
    not negative up to the redshifted limit. *)
Lemma continuum_forest_low (a x : R) :
  0 < x <= a -> 0 <= Rpower x 1.2 - Rpower a (-9e-1) * Rpower x 2.1.
Proof.
  intros hx.
  replace 2.1 with (1.2 + 0.9) by lra.
  replace (Rpower a (-9e-1)) with (/ Rpower a 0.9)
    by (unfold Rpower; rewrite <- exp_Ropp; f_equal; lra).
  rewrite Rpower_plus.
  pose proof (@Rle_Rpower_l x a 0.9 ltac:(lra) ltac:(lra)) as hq.
  assert (hP : 0 < Rpower x 1.2) by apply exp_pos.
  assert (hQ : 0 < Rpower x 0.9) by apply exp_pos.
  revert hq hP hQ.
  generalize (Rpower x 1.2) (Rpower x 0.9) (Rpower a 0.9); intros P Q A hq hP hQ.
  assert (hA : 0 < / A) by (apply Rinv_0_lt_compat; lra).
  assert (hle : / A * Q <= 1).
  { apply Rmult_le_reg_l with A; [lra|].
    rewrite <- Rmult_assoc, Rinv_r by lra; lra. }
  nra.
Qed.

(** In the first regime of the fit the optical depth is not negative from the
    rest-frame Lyman limit upwards. *)
Lemma accumulate_nonneg_low (z wi : R) :
  0 < z <= 1 -> 911.8 <= wi -> 0 <= Igm.accumulate z wi 0.
Proof.
  intros hz hwi.
  destruct (Rle_lt_dec (911.8 * (1 + z)) wi) as [hred|hblue];
    [apply accumulate_nonneg; lra|].
  unfold Igm.accumulate, Np.gtb; rewrite NpFacts.ltb_false by lra.
  pose proof (@series_absorbs z wi ltac:(lra)) as hs.
  revert hs; generalize (Igm.lyman_series z wi 0); intros s hs.
  unfold Igm.lyman_continuum, Igm.lamL, Igm.z1DLA, Igm.z1LAF, Igm._pow, Igm._powi.
  rewrite !NpFacts.ltb_true by lra.
  set (x := wi / 911.8).
  assert (hx : 1 <= x < 1 + z) by (unfold x; lra).
  pose proof (@continuum_damped_low (1 + z) x ltac:(lra) ltac:(lra)) as hd.
  pose proof (@continuum_forest_low (1 + z) x ltac:(lra)) as hf.
  assert (ha : (1 + z) ^ 2 <= 4) by nra.
  lra.
Qed.

End IgmContinuum.

(** ** Claims about [compute_igm] *)

Section IgmClaims.

Lemma exp_le_1 (u : R) : u <= 0 -> exp u <= 1.
Proof.
  intros [hu| ->]; [|rewrite exp_0; lra].
  pose proof (exp_increasing u 0 hu) as inc; rewrite exp_0 in inc; lra.
Qed.

Lemma exp_le (u v : R) : u <= v -> exp u <= exp v.
Proof. intros [h| ->]; [left; apply exp_increasing; assumption | lra]. Qed.

(** C5. From the running value [tau] one turn of the loop over the table
    adds the forest term and the damped term of that row, each present
    exactly when [wi < lsj (1 + z)], the forest term with exponent 1.2, 3.7
    or 5.5 and the damped term with exponent 2 or 3; over the whole table
    the terms add up; and for [wi <= 1300 (1 + z)] this sum is what the
    continuum terms are then added to.  (The table of the source has the 39
    rows of the series members 2 to 40.) *)
Theorem lyman_series_terms :
  (forall (z wi tau : R) (row : nat * R),
      Igm.series_row z wi tau row = tau + forest_term z wi row + damped_term z wi row)
  /\ (forall z wi tau : R,
        Igm.lyman_series z wi tau
        = tau + total (map (fun row => forest_term z wi row + damped_term z wi row)
                           (Igm.enumerate 0 Igm.ALAM)))
  /\ (forall z wi tau : R,
        wi <= 1300 * (1 + z) ->
        Igm.accumulate z wi tau = Igm.lyman_continuum z wi (Igm.lyman_series z wi tau))
  /\ length Igm.ALAM = 39%nat.
Proof.
  split; [exact IgmFacts.series_row_terms|]; split; [|split].
  - intros; apply IgmFacts.fold_series.
  - intros z wi tau hwi; unfold Igm.accumulate, Np.gtb.
    rewrite NpFacts.ltb_false by lra; reflexivity.
  - IgmFacts.table; reflexivity.
Qed.

(** C8. Entry [i] of the result is [exp(-scale_tau * tau[i])], where
    [tau[i]] is what the loop accumulated from zero for [wobs[i]]; for
    [wobs[i] > 1300 (1 + z)] nothing is accumulated, [tau[i] = 0], and the
    entry is 1. *)
Theorem transmission_is_exp_of_tau (z : R) (wobs : list R) (scale_tau : R) (i : nat) :
  (i < length wobs)%nat ->
  nth i (Igm.compute_igm z wobs scale_tau) 0
  = exp (- scale_tau * nth i (Igm.tau_loop z wobs (Np.zeros_like wobs)) 0)
  /\ nth i (Igm.tau_loop z wobs (Np.zeros_like wobs)) 0
     = Igm.accumulate z (nth i wobs 0) 0
  /\ (nth i wobs 0 > 1300 * (1 + z) ->
      nth i (Igm.tau_loop z wobs (Np.zeros_like wobs)) 0 = 0
      /\ nth i (Igm.compute_igm z wobs scale_tau) 0 = 1).
Proof.
  intros hi.
  rewrite IgmFacts.tau_loop_nth, IgmFacts.compute_igm_nth by assumption.
  split; [reflexivity|]; split; [reflexivity|].
  intros hred; unfold Igm.accumulate, Np.gtb.
  rewrite NpFacts.ltb_true by lra.
  split; [reflexivity|].
  rewrite Rmult_0_r; apply exp_0.
Qed.


End IgmClaims.



Lemma transmission_is_exp_of_tau_witness :
  nth 0 (Igm.compute_igm 1 [3000] 2) 0
  = exp (- 2 * nth 0 (Igm.tau_loop 1 [3000] (Np.zeros_like [3000])) 0)
  /\ nth 0 (Igm.tau_loop 1 [3000] (Np.zeros_like [3000])) 0
     = Igm.accumulate 1 (nth 0 [3000] 0) 0
  /\ (nth 0 [3000] 0 > 1300 * (1 + 1) ->
      nth 0 (Igm.tau_loop 1 [3000] (Np.zeros_like [3000])) 0 = 0
      /\ nth 0 (Igm.compute_igm 1 [3000] 2) 0 = 1).
Proof.
  apply (transmission_is_exp_of_tau 1 [3000] 2 (i := 0)); simpl; lia.
Defined.

(** * Further properties of the kernels *)

(** ** The search loops *)

Section ClimbMeaning.

Lemma climb_passed (stop : Z) (test : Z -> bool) (k : Z) :
  forall j, (k <= j < climb stop test k)%Z -> test j = true /\ (j < stop)%Z.
Proof.
  funelim (climb stop test k); intros j hj.
  - destruct (Z.eq_dec j k) as [->|hne].
    + destruct (andb_prop _ _ go) as [ht hs]; apply Z.ltb_lt in hs; auto.
    + match goal with IH : forall j, _ -> test j = true /\ _ |- _ => apply IH end; lia.
  - lia.
Qed.

(** The guard is looked at only between the start and the stop. *)
Lemma climb_ext (stop : Z) (test test' : Z -> bool) (k : Z) :
  (forall j, (k <= j < stop)%Z -> test j = test' j) ->
  climb stop test k = climb stop test' k.
Proof.
  funelim (climb stop test k); intros same.
  - rewrite (climb_step stop test' k), <- same, go.
    + match goal with IH : forall t, _ -> climb _ _ (k + 1) = _ |- _ => apply IH end.
      intros j hj; apply same; lia.
    + pose proof (proj2 (andb_prop _ _ go)) as lt; apply Z.ltb_lt in lt; lia.
  - rewrite (climb_step stop test' k).
    destruct (Z.ltb_spec k stop) as [hlt|hge].
    + rewrite <- same, e by lia; reflexivity.
    + rewrite andb_false_r; reflexivity.
Qed.

(** X1. [while test(k) & (k < stop): k += 1] (source lines 81-82 and 89-90)
    returns the first index from the start on at which the guard fails:
    it never moves back, every index it passed satisfied the test and lay
    below the stop, and at the index it returns the guard is false. *)
Theorem climb_first_failure (stop : Z) (test : Z -> bool) (k : Z) :
  (k <= climb stop test k <= Z.max k stop)%Z
  /\ (forall j, (k <= j < climb stop test k)%Z -> test j = true /\ (j < stop)%Z)
  /\ test (climb stop test k) && (climb stop test k <? stop)%Z = false.
Proof.
  split; [split; [apply climb_ge | apply climb_le]|].
  split; [apply climb_passed | apply climb_done].
Qed.

End ClimbMeaning.

(** ** One turn of the pixel loop, whatever branch it takes *)

Section PixelLoopTurn.

Context {rt : Runtime}.

Variables spec_wobs templ_wobs templ_flux dw : list R.
Variable nsig : R.

Let loop := pixel_loop spec_wobs templ_wobs templ_flux dw nsig.

(** A turn fails, or stops the loop with the array as it is, or hands the
    array on to the next turn, untouched or with entry [i] assigned and no
    [Skipped] recorded. *)
Lemma pixel_loop_turn (i : Z) (rest : list Z) (ilo ihi : Z) (resamp : list R) :
  (exists events e,
      Forall (fun ev => event_pixel ev = i) events
      /\ loop (i :: rest) ilo ihi resamp = (events, Err e))
  \/ (exists events,
        Forall (fun ev => event_pixel ev = i) events
        /\ loop (i :: rest) ilo ihi resamp = (events, Ok resamp))
  \/ (exists events ilo' ihi' r',
        Forall (fun ev => event_pixel ev = i) events
        /\ (r' = resamp
            \/ (~ In (Skipped i) events /\ exists v, Np.setitem resamp i v = Ok r'))
        /\ loop (i :: rest) ilo ihi resamp
           = (events ++ fst (loop rest ilo' ihi' r'), snd (loop rest ilo' ihi' r'))).
Proof.
  unfold loop; cbn [pixel_loop].
  destruct (spec_wobs.[i]) as [w|e];
    [rewrite bind_lift_ok | left; exists [], e; split; [constructor | reflexivity]].
  destruct (dw.[i]) as [d|e];
    [rewrite bind_lift_ok | left; exists [], e; split; [constructor | reflexivity]].
  set (lo1 := climb _ _ ilo).
  destruct (Z.eqb_spec lo1 0) as [h0|h0].
  { right; right; exists [Skipped i], lo1, ihi, resamp.
    split; [repeat constructor|]; split; [left; reflexivity|].
    rewrite bind_tell; reflexivity. }
  rewrite bind_tell.
  set (hi1 := climb _ _ ihi).
  destruct (Z.geb_spec (lo1 - 1) hi1) as [hge|hlt].
  - rewrite bind_tell; cbn [fst snd].
    destruct (templ_flux.[hi1]) as [v|e]; [rewrite bind_lift_ok|].
    + destruct (Np.setitem resamp i v) as [r|e] eqn:hset; [rewrite bind_lift_ok|].
      * right; right; exists [BackStep i (lo1 - 1) ihi; Nearest i (lo1 - 1) hi1],
          (lo1 - 1)%Z, hi1, r.
        split; [repeat constructor|]; split; [|reflexivity].
        right; split; [|eauto].
        intros [hin|[hin|[]]]; discriminate hin.
      * left; exists [BackStep i (lo1 - 1) ihi; Nearest i (lo1 - 1) hi1], e.
        split; [repeat constructor | reflexivity].
    + left; exists [BackStep i (lo1 - 1) ihi; Nearest i (lo1 - 1) hi1], e.
      split; [repeat constructor | reflexivity].
  - destruct (Z.eqb_spec (lo1 - 1) (Np.len templ_wobs - 1)) as [hx|hx].
    + right; left; exists [BackStep i (lo1 - 1) ihi; Exhausted i].
      split; [repeat constructor | reflexivity].
    + rewrite bind_tell; cbn [fst snd].
      destruct (Np.broadcast2 _ _ _) as [fg|e]; [rewrite bind_lift_ok|].
      * destruct (Np.setitem resamp i _) as [r|e] eqn:hset; [rewrite bind_lift_ok|].
        -- right; right; exists [BackStep i (lo1 - 1) ihi; Integrated i (lo1 - 1) hi1],
             (lo1 - 1)%Z, hi1, r.
           split; [repeat constructor|]; split; [|reflexivity].
           right; split; [|eauto].
           intros [hin|[hin|[]]]; discriminate hin.
        -- left; exists [BackStep i (lo1 - 1) ihi; Integrated i (lo1 - 1) hi1], e.
           split; [repeat constructor | reflexivity].
      * left; exists [BackStep i (lo1 - 1) ihi; Integrated i (lo1 - 1) hi1], e.
        split; [repeat constructor | reflexivity].
Qed.

Lemma setitem_length (x : list R) (i : Z) (v : R) (r : list R) :
  Np.setitem x i v = Ok r -> length r = length x.
Proof.
  unfold Np.setitem; destruct (Np.inside (length x) i); [|discriminate].
  intros h; injection h as <-; apply NpFacts.length_update.
Qed.

Lemma setitem_elsewhere (x : list R) (i : nat) (v : R) (r : list R) (j : nat) :
  Np.setitem x (Z.of_nat i) v = Ok r -> j <> i -> nth j r 0 = nth j x 0.
Proof.
  unfold Np.setitem; destruct (Np.inside (length x) (Z.of_nat i)); [|discriminate].
  rewrite NpFacts.wrap_nat, Nat2Z.id.
  intros h hne; injection h as <-; apply NpFacts.nth_update_neq; assumption.
Qed.

Lemma pixel_loop_length (idx : list Z) :
  forall (ilo ihi : Z) (resamp r : list R),
    snd (loop idx ilo ihi resamp) = Ok r -> length r = length resamp.
Proof.
  induction idx as [|i rest IH]; intros ilo ihi resamp r hr.
  - injection hr as <-; reflexivity.
  - destruct (pixel_loop_turn i rest ilo ihi resamp)
      as [(ev & e & _ & heq)|[(ev & _ & heq)|(ev & lo' & hi' & r' & _ & hset & heq)]];
      rewrite heq in hr; cbn [snd] in hr.
    + discriminate hr.
    + injection hr as <-; reflexivity.
    + apply IH in hr; rewrite hr.
      destruct hset as [->|(_ & v & hset)]; [reflexivity | eapply setitem_length; eauto].
Qed.

Lemma pixel_loop_pixels (idx : list Z) :
  forall (ilo ihi : Z) (resamp : list R),
    Forall (fun ev => In (event_pixel ev) idx) (fst (loop idx ilo ihi resamp)).
Proof.
  induction idx as [|i rest IH]; intros ilo ihi resamp.
  - constructor.
  - assert (here : forall ev, Forall (fun e => event_pixel e = i) ev ->
                     Forall (fun e => In (event_pixel e) (i :: rest)) ev).
    { intros ev hev; eapply Forall_impl; [|exact hev].
      intros e he; left; symmetry; exact he. }
    destruct (pixel_loop_turn i rest ilo ihi resamp)
      as [(ev & e & hev & heq)|[(ev & hev & heq)|(ev & lo' & hi' & r' & hev & _ & heq)]];
      rewrite heq; cbn [fst]; auto.
    apply Forall_app; split; [auto|].
    eapply Forall_impl; [|apply IH]; intros e he; right; exact he.
Qed.

(** An entry keeps its value through the loop when its pixel is not among
    those still to come, or was skipped. *)
Lemma pixel_loop_untouched (ks : list nat) :
  NoDup ks ->
  forall (ilo ihi : Z) (resamp r : list R) (j : nat),
    snd (loop (map Z.of_nat ks) ilo ihi resamp) = Ok r ->
    ~ In j ks \/ In (Skipped (Z.of_nat j)) (fst (loop (map Z.of_nat ks) ilo ihi resamp)) ->
    nth j r 0 = nth j resamp 0.
Proof.
  induction 1 as [|k ks hk hks IH]; intros ilo ihi resamp r j hr hj.
  - injection hr as <-; reflexivity.
  - cbn [map] in hr, hj.
    destruct (pixel_loop_turn (Z.of_nat k) (map Z.of_nat ks) ilo ihi resamp)
      as [(ev & e & _ & heq)|[(ev & _ & heq)|(ev & lo' & hi' & r' & hev & hset & heq)]];
      rewrite heq in hr, hj; cbn [fst snd] in hr, hj.
    + discriminate hr.
    + injection hr as <-; reflexivity.
    + assert (later : In (Skipped (Z.of_nat j))
                        (fst (loop (map Z.of_nat ks) lo' hi' r')) -> In j ks).
      { intros hin.
        pose proof (pixel_loop_pixels (map Z.of_nat ks) lo' hi' r') as hp.
        rewrite Forall_forall in hp; specialize (hp _ hin); cbn in hp.
        apply in_map_iff in hp; destruct hp as (j' & hj' & hin').
        apply Nat2Z.inj in hj'; subst j'; exact hin'. }
      destruct (Nat.eq_dec j k) as [->|hne].
      * (* the pixel of this turn *)
        assert (hskip : In (Skipped (Z.of_nat k)) ev).
        { destruct hj as [hj|hj]; [exfalso; apply hj; left; reflexivity|].
          apply in_app_or in hj; destruct hj as [hj|hj]; [exact hj|].
          exfalso; apply hk, later, hj. }
        destruct hset as [->|(hno & _)]; [|contradiction].
        apply (IH lo' hi' resamp r k hr); left; exact hk.
      * rewrite (IH lo' hi' r' r j hr).
        -- destruct hset as [->|(_ & v & hset)]; [reflexivity|].
           eapply setitem_elsewhere; eauto.
        -- destruct hj as [hj|hj]; [left; intros hin; apply hj; right; exact hin|].
           apply in_app_or in hj; destruct hj as [hj|hj]; [|right; exact hj].
           rewrite Forall_forall in hev; specialize (hev _ hj); cbn in hev.
           apply Nat2Z.inj in hev; contradiction.
Qed.

End PixelLoopTurn.

(** ** What the resampler returns *)

Section ResampleResult.

Context {rt : Runtime}.

Variables spec_wobs spec_R_fwhm templ_wobs templ_flux : list R.
Variables velocity_sigma nsig : R.

Lemma range_from_0 (x : list R) :
  Np.range 0 (Np.len x) = map Z.of_nat (seq 0 (length x)).
Proof.
  change 0%Z with (Z.of_nat 0); unfold Np.len; rewrite NpFacts.range_nat.
  rewrite Nat.sub_0_r; reflexivity.
Qed.

(** X2. A call that returns, returns an array as long as the observation grid
    (source lines 74-75 and 106). *)
Theorem resample_length (fill_value : R) (r : list R) :
  resample_template_numba spec_wobs spec_R_fwhm templ_wobs templ_flux
    velocity_sigma nsig fill_value = Ok r ->
  length r = length spec_wobs.
Proof.
  unfold resample_template_numba, resample_template_run.
  destruct (resample_dw spec_wobs spec_R_fwhm velocity_sigma) as [dw|e];
    [rewrite bind_lift_ok | discriminate].
  intros hr; apply pixel_loop_length in hr.
  rewrite hr, length_map; apply NpFacts.length_zeros_like.
Qed.

(** X3. [fill_value] has no effect: the run, and so the array returned, is the
    same for any two values (source line 75 multiplies zeros by it). *)
Theorem resample_ignores_fill_value (fill_value fill_value' : R) :
  resample_template_run spec_wobs spec_R_fwhm templ_wobs templ_flux
    velocity_sigma nsig fill_value
  = resample_template_run spec_wobs spec_R_fwhm templ_wobs templ_flux
      velocity_sigma nsig fill_value'.
Proof.
  unfold resample_template_run; rewrite !initial_resamp_zero; reflexivity.
Qed.

(** X4. A pixel the loop skipped ([ilo == 0] after the search, source lines
    84-85) comes back as 0, whatever [fill_value] was. *)
Theorem resample_skipped_is_zero (fill_value : R) (r : list R) (i : nat) :
  resample_template_numba spec_wobs spec_R_fwhm templ_wobs templ_flux
    velocity_sigma nsig fill_value = Ok r ->
  In (Skipped (Z.of_nat i))
     (resample_template_log spec_wobs spec_R_fwhm templ_wobs templ_flux
        velocity_sigma nsig fill_value) ->
  nth i r 0 = 0.
Proof.
  unfold resample_template_numba, resample_template_log, resample_template_run.
  destruct (resample_dw spec_wobs spec_R_fwhm velocity_sigma) as [dw|e];
    [rewrite bind_lift_ok | discriminate].
  rewrite initial_resamp_zero, range_from_0.
  intros hr hskip.
  rewrite (pixel_loop_untouched _ _ _ _ _ (seq_NoDup _ _) _ _ _ i hr) by (right; exact hskip).
  unfold Np.zeros_like.
  destruct (Nat.lt_ge_cases i (length spec_wobs)) as [hlt|hge].
  - rewrite NpFacts.nth_map0 by assumption; reflexivity.
  - apply nth_overflow; rewrite length_map; assumption.
Qed.

(** X5. A template of at most one sample leaves no room below any pixel: every
    pixel is skipped and the result is all zeros (source lines 81-85 with
    [Nt - 1 <= 0]). *)
Theorem resample_short_template (fill_value : R) :
  (length templ_wobs <= 1)%nat -> length spec_R_fwhm = length spec_wobs ->
  resample_template_run spec_wobs spec_R_fwhm templ_wobs templ_flux
    velocity_sigma nsig fill_value
  = (map Skipped (Np.range 0 (Np.len spec_wobs)), Ok (Np.zeros_like spec_wobs)).
Proof.
  intros hNt hlen.
  unfold resample_template_run.
  assert (hdw : exists dw, resample_dw spec_wobs spec_R_fwhm velocity_sigma = Ok dw
                           /\ length dw = length spec_wobs).
  { unfold resample_dw.
    rewrite NpFacts.broadcast2_same by (rewrite length_map; exact hlen).
    eexists; split; [reflexivity|].
    rewrite NpFacts.length_zip; rewrite length_map; assumption. }
  destruct hdw as (dw & -> & ldw).
  rewrite bind_lift_ok, initial_resamp_zero, range_from_0.
  generalize (Np.zeros_like spec_wobs) as resamp.
  assert (hks : Forall (fun k => (k < length spec_wobs)%nat) (seq 0 (length spec_wobs))).
  { apply Forall_forall; intros k hk; apply in_seq in hk; lia. }
  revert hks; generalize (seq 0 (length spec_wobs)) as ks.
  generalize 1%Z as ihi.
  intros ihi ks hks; revert ihi; induction hks as [|k ks hk hks IH]; intros ihi resamp.
  - reflexivity.
  - cbn [map].
    rewrite (@pixel_loop_skip _ spec_wobs templ_wobs templ_flux dw nsig (Z.of_nat k)
               (map Z.of_nat ks) 0%Z ihi resamp (nth k spec_wobs 0) (nth k dw 0)).
    + rewrite IH; reflexivity.
    + apply NpFacts.getitem_nat; assumption.
    + apply NpFacts.getitem_nat; lia.
    + apply climb_stay; unfold Np.len; lia.
Qed.

End ResampleResult.

(** ** The stray reads of the guards never reach the result *)

Section StrayReads.

Variables rt1 rt2 : Runtime.

Variables spec_wobs templ_wobs templ_flux : list R.
Variable nsig : R.

Lemma peek_inside (x : list R) (j : Z) :
  Np.inside (length x) j = true -> Np.peek (rt := rt1) x j = Np.peek (rt := rt2) x j.
Proof. intros h; unfold Np.peek; rewrite h; reflexivity. Qed.

Lemma pixel_loop_any_runtime (dw : list R) (idx : list Z) :
  forall (ilo ihi : Z) (resamp : list R),
    (0 <= ilo)%Z -> (0 <= ihi)%Z ->
    pixel_loop (rt := rt1) spec_wobs templ_wobs templ_flux dw nsig idx ilo ihi resamp
    = pixel_loop (rt := rt2) spec_wobs templ_wobs templ_flux dw nsig idx ilo ihi resamp.
Proof.
  induction idx as [|i rest IH]; intros ilo ihi resamp hlo hhi; [reflexivity|].
  cbn [pixel_loop].
  destruct (spec_wobs.[i]) as [w|e]; [rewrite !bind_lift_ok | rewrite ?bind_lift_err; reflexivity].
  destruct (dw.[i]) as [d|e]; [rewrite !bind_lift_ok | rewrite ?bind_lift_err; reflexivity].
  assert (hguard : forall lim j, (0 <= j < Np.len templ_wobs)%Z ->
             (Np.peek (rt := rt1) templ_wobs j <? lim)
             = (Np.peek (rt := rt2) templ_wobs j <? lim)).
  { intros lim j hj; rewrite peek_inside; [reflexivity|].
    apply NpFacts.inside_iff; unfold Np.len in hj; lia. }
  rewrite (@climb_ext (Np.len templ_wobs - 1)%Z
             (fun k => Np.peek (rt := rt1) templ_wobs k <? w - nsig * d)
             (fun k => Np.peek (rt := rt2) templ_wobs k <? w - nsig * d) ilo)
    by (intros j hj; apply hguard; lia).
  rewrite (@climb_ext (Np.len templ_wobs)
             (fun k => Np.peek (rt := rt1) templ_wobs k <? w + nsig * d)
             (fun k => Np.peek (rt := rt2) templ_wobs k <? w + nsig * d) ihi)
    by (intros j hj; apply hguard; lia).
  set (lo1 := climb _ _ ilo).
  set (hi1 := climb _ _ ihi).
  assert (hlo1 : (ilo <= lo1)%Z) by apply climb_ge.
  assert (hhi1 : (ihi <= hi1)%Z) by apply climb_ge.
  destruct (Z.eqb_spec lo1 0) as [h0|h0].
  - rewrite !bind_tell, IH by lia; reflexivity.
  - rewrite !bind_tell.
    destruct (Z.geb_spec (lo1 - 1) hi1) as [hge|hlt].
    + rewrite ?bind_tell.
      destruct (templ_flux.[hi1]) as [v|e]; [rewrite !bind_lift_ok | rewrite ?bind_lift_err; reflexivity].
      destruct (Np.setitem resamp i v) as [r|e]; [rewrite !bind_lift_ok | rewrite ?bind_lift_err; reflexivity].
      rewrite IH by lia; reflexivity.
    + destruct (Z.eqb_spec (lo1 - 1) (Np.len templ_wobs - 1)) as [hx|hx]; [reflexivity|].
      rewrite ?bind_tell.
      destruct (Np.broadcast2 _ _ _) as [fg|e]; [rewrite !bind_lift_ok | rewrite ?bind_lift_err; reflexivity].
      destruct (Np.setitem resamp i _) as [r|e]; [rewrite !bind_lift_ok | rewrite ?bind_lift_err; reflexivity].
      rewrite IH by lia; reflexivity.
Qed.

(** X6. The guards read [templ_wobs[ihi]] even at [ihi == Nt] (source line 89:
    [&] does not short-circuit), but what that read finds never matters:
    the run is the same whatever lies outside the array. *)
Theorem resample_ignores_stray_reads (spec_R_fwhm : list R)
    (velocity_sigma fill_value : R) :
  resample_template_run (rt := rt1) spec_wobs spec_R_fwhm templ_wobs templ_flux
    velocity_sigma nsig fill_value
  = resample_template_run (rt := rt2) spec_wobs spec_R_fwhm templ_wobs templ_flux
      velocity_sigma nsig fill_value.
Proof.
  unfold resample_template_run.
  destruct (resample_dw spec_wobs spec_R_fwhm velocity_sigma) as [dw0|e];
    [rewrite !bind_lift_ok | rewrite ?bind_lift_err; reflexivity].
  apply pixel_loop_any_runtime; lia.
Qed.

End StrayReads.

(** ** The resampler is linear in the template flux *)

Section Linearity.

Variables a b : R.

Let lin := combination a b.

Lemma length_lin (l1 l2 : list R) : length l1 = length l2 -> length (lin l1 l2) = length l1.
Proof. intros h; apply (NpFacts.length_zip (fun u v => a * u + b * v)); exact h. Qed.

Lemma nth_lin (l1 l2 : list R) (k : nat) :
  length l1 = length l2 -> (k < length l1)%nat ->
  nth k (lin l1 l2) 0 = a * nth k l1 0 + b * nth k l2 0.
Proof. intros h hk; apply (NpFacts.nth_zip (fun u v => a * u + b * v)); assumption. Qed.

Lemma lin_zeros (x : list R) : lin (Np.zeros_like x) (Np.zeros_like x) = Np.zeros_like x.
Proof.
  unfold lin, combination; induction x as [|u x IH]; simpl; [reflexivity|].
  f_equal; [lra | exact IH].
Qed.

Lemma lin_update (l1 l2 : list R) (k : nat) (u v : R) :
  Np.update (lin l1 l2) k (a * u + b * v) = lin (Np.update l1 k u) (Np.update l2 k v).
Proof.
  unfold lin, combination; revert l2 k.
  induction l1 as [|x l1 IH]; intros [|y l2] [|k]; simpl; try reflexivity.
  f_equal; apply IH.
Qed.

Lemma lin_firstn (n : nat) (l1 l2 : list R) :
  firstn n (lin l1 l2) = lin (firstn n l1) (firstn n l2).
Proof.
  unfold lin, combination; revert l1 l2.
  induction n as [|n IH]; intros [|x l1] [|y l2]; simpl; try reflexivity.
  f_equal; apply IH.
Qed.

Lemma lin_skipn (n : nat) (l1 l2 : list R) :
  length l1 = length l2 -> skipn n (lin l1 l2) = lin (skipn n l1) (skipn n l2).
Proof.
  unfold lin, combination; revert l1 l2.
  induction n as [|n IH]; intros [|x l1] [|y l2] h; simpl in *; try reflexivity;
    try discriminate.
  apply IH; lia.
Qed.

Lemma getitem_lin (f1 f2 : list R) (i : Z) :
  length f1 = length f2 ->
  (exists u v, f1.[i] = Ok u /\ f2.[i] = Ok v /\ (lin f1 f2).[i] = Ok (a * u + b * v))
  \/ (exists e, f1.[i] = Err e /\ f2.[i] = Err e /\ (lin f1 f2).[i] = Err e).
Proof.
  intros h; unfold Np.getitem; rewrite length_lin, <- h by assumption.
  destruct (Np.inside (length f1) i) eqn:hin.
  - left; do 2 eexists; repeat split.
    apply NpFacts.inside_iff in hin.
    rewrite nth_lin; [reflexivity | assumption |].
    unfold Np.wrap; destruct (Z.ltb_spec i 0); lia.
  - right; eexists; repeat split.
Qed.

Lemma setitem_lin (r1 r2 : list R) (i : Z) (u v : R) :
  length r1 = length r2 ->
  (exists r1' r2',
      Np.setitem r1 i u = Ok r1' /\ Np.setitem r2 i v = Ok r2'
      /\ Np.setitem (lin r1 r2) i (a * u + b * v) = Ok (lin r1' r2')
      /\ length r1' = length r2')
  \/ (exists e,
        Np.setitem r1 i u = Err e /\ Np.setitem r2 i v = Err e
        /\ Np.setitem (lin r1 r2) i (a * u + b * v) = Err e).
Proof.
  intros h; unfold Np.setitem; rewrite length_lin, <- h by assumption.
  destruct (Np.inside (length r1) i).
  - left; do 2 eexists; repeat split.
    + rewrite lin_update; reflexivity.
    + rewrite !NpFacts.length_update; exact h.
  - right; eexists; repeat split.
Qed.

Lemma slice_lin (f1 f2 : list R) (lo hi : option Z) :
  length f1 = length f2 ->
  Np.slice (lin f1 f2) lo hi = lin (Np.slice f1 lo hi) (Np.slice f2 lo hi)
  /\ length (Np.slice f1 lo hi) = length (Np.slice f2 lo hi).
Proof.
  intros h; unfold Np.slice, Np.len; rewrite length_lin, <- h by assumption.
  split.
  - rewrite lin_skipn, lin_firstn by assumption; reflexivity.
  - rewrite !length_firstn, !length_skipn, h; reflexivity.
Qed.

Lemma lin_times_l (x y : R) (g : list R) :
  map (fun v => (a * x + b * y) * v) g
  = lin (map (fun v => x * v) g) (map (fun v => y * v) g).
Proof.
  unfold lin, combination; induction g as [|g0 g IH]; simpl; [reflexivity|].
  f_equal; [lra | exact IH].
Qed.

Lemma lin_times_r (s1 s2 : list R) (g0 : R) :
  map (fun u => u * g0) (lin s1 s2)
  = lin (map (fun u => u * g0) s1) (map (fun u => u * g0) s2).
Proof.
  unfold lin, combination; revert s2.
  induction s1 as [|x s1 IH]; intros [|y s2]; simpl; try reflexivity.
  f_equal; [lra | apply IH].
Qed.

Lemma lin_zip (s1 s2 g : list R) :
  map (fun p => fst p * snd p) (combine (lin s1 s2) g)
  = lin (map (fun p => fst p * snd p) (combine s1 g))
        (map (fun p => fst p * snd p) (combine s2 g)).
Proof.
  unfold lin, combination; revert s2 g.
  induction s1 as [|x s1 IH]; intros [|y s2] [|g0 g]; simpl; try reflexivity.
  f_equal; [lra | apply IH].
Qed.

Lemma broadcast2_lin (s1 s2 g : list R) :
  length s1 = length s2 ->
  (exists g1 g2,
      Np.broadcast2 Rmult s1 g = Ok g1 /\ Np.broadcast2 Rmult s2 g = Ok g2
      /\ Np.broadcast2 Rmult (lin s1 s2) g = Ok (lin g1 g2)
      /\ length g1 = length g2)
  \/ (exists e,
        Np.broadcast2 Rmult s1 g = Err e /\ Np.broadcast2 Rmult s2 g = Err e
        /\ Np.broadcast2 Rmult (lin s1 s2) g = Err e).
Proof.
  intros h; unfold Np.broadcast2; rewrite length_lin, <- h by assumption.
  destruct (Nat.eqb_spec (length s1) (length g)) as [heq|hne].
  - left; do 2 eexists; repeat split.
    + f_equal; apply lin_zip.
    + rewrite !length_map, !length_combine; lia.
  - destruct s1 as [|x [|x' s1]], s2 as [|y [|y' s2]]; try discriminate h.
    + change (lin [] []) with (@nil R).
      destruct g as [|g0 [|g1 g]]; [contradiction | |].
      * left; do 2 eexists; repeat split.
      * right; eexists; repeat split.
    + change (lin [x] [y]) with [a * x + b * y].
      left; do 2 eexists; repeat split.
      * f_equal; apply lin_times_l.
      * rewrite !length_map; reflexivity.
    + assert (hl : length (lin (x :: x' :: s1) (y :: y' :: s2)) = length (x :: x' :: s1))
        by (apply length_lin; exact h).
      change (lin (x :: x' :: s1) (y :: y' :: s2))
        with ((a * x + b * y) :: (a * x' + b * y') :: lin s1 s2) in *.
      destruct g as [|g0 [|g1 g]].
      * right; eexists; repeat split.
      * left; do 2 eexists; repeat split.
        -- f_equal.
           change ((a * x + b * y) :: (a * x' + b * y') :: lin s1 s2)
             with (lin (x :: x' :: s1) (y :: y' :: s2)).
           apply lin_times_r.
        -- rewrite !length_map; exact h.
      * right; eexists; repeat split.
Qed.

Lemma trapz_lin (y1 y2 x : list R) :
  length y1 = length y2 ->
  Np.trapz (lin y1 y2) x = a * Np.trapz y1 x + b * Np.trapz y2 x.
Proof.
  unfold lin, combination; revert y2 x.
  induction y1 as [|u y1 IH]; intros [|v y2] x h; try discriminate h.
  - simpl; lra.
  - destruct x as [|x0 x]; [simpl; lra|].
    destruct y1 as [|u1 y1], y2 as [|v1 y2]; try discriminate h.
    + simpl; lra.
    + destruct x as [|x1 x]; [simpl; lra|].
      specialize (IH (v1 :: y2) (x1 :: x)).
      change (Np.trapz (map (fun p => a * fst p + b * snd p)
                          (combine (u :: u1 :: y1) (v :: v1 :: y2))) (x0 :: x1 :: x))
        with ((x1 - x0) * ((a * u1 + b * v1) + (a * u + b * v)) / 2.0
              + Np.trapz (map (fun p => a * fst p + b * snd p)
                            (combine (u1 :: y1) (v1 :: y2))) (x1 :: x)).
      rewrite IH by (simpl in h; simpl; lia).
      change (Np.trapz (u :: u1 :: y1) (x0 :: x1 :: x))
        with ((x1 - x0) * (u1 + u) / 2.0 + Np.trapz (u1 :: y1) (x1 :: x)).
      change (Np.trapz (v :: v1 :: y2) (x0 :: x1 :: x))
        with ((x1 - x0) * (v1 + v) / 2.0 + Np.trapz (v1 :: y2) (x1 :: x)).
      lra.
Qed.

(** Three runs that pass the same points and either fail alike or return
    arrays of which the third is the combination of the first two. *)
Let agree (m1 m2 m : logged (list R)) : Prop :=
  fst m1 = fst m /\ fst m2 = fst m
  /\ ((exists o1 o2, snd m1 = Ok o1 /\ snd m2 = Ok o2 /\ snd m = Ok (lin o1 o2))
      \/ (exists e, snd m1 = Err e /\ snd m2 = Err e /\ snd m = Err e)).

Lemma agree_tell (e : event) (k1 k2 k : unit -> logged (list R)) :
  agree (k1 tt) (k2 tt) (k tt) ->
  agree (bind_log (tell e) k1) (bind_log (tell e) k2) (bind_log (tell e) k).
Proof.
  intros (h1 & h2 & h3); rewrite !bind_tell; unfold agree; cbn [fst snd].
  rewrite h1, h2; auto.
Qed.

Lemma agree_lift (A : Type) (v1 v2 v : A) (k1 k2 k : A -> logged (list R)) :
  agree (k1 v1) (k2 v2) (k v) ->
  agree (bind_log (lift (Ok v1)) k1) (bind_log (lift (Ok v2)) k2) (bind_log (lift (Ok v)) k).
Proof. rewrite !bind_lift_ok; trivial. Qed.

Lemma agree_fail (A : Type) (e : error) (k1 k2 k : A -> logged (list R)) :
  agree (bind_log (lift (Err e)) k1) (bind_log (lift (Err e)) k2) (bind_log (lift (Err e)) k).
Proof.
  rewrite !bind_lift_err; unfold agree; cbn [fst snd].
  repeat split; right; eauto.
Qed.

Section Loop.

Context {rt : Runtime}.

Variables spec_wobs templ_wobs dw : list R.
Variable nsig : R.
Variables f1 f2 : list R.

Hypothesis same_length : length f1 = length f2.

Lemma pixel_loop_lin (idx : list Z) :
  forall (ilo ihi : Z) (r1 r2 : list R),
    length r1 = length r2 ->
    agree (pixel_loop spec_wobs templ_wobs f1 dw nsig idx ilo ihi r1)
          (pixel_loop spec_wobs templ_wobs f2 dw nsig idx ilo ihi r2)
          (pixel_loop spec_wobs templ_wobs (lin f1 f2) dw nsig idx ilo ihi (lin r1 r2)).
Proof.
  induction idx as [|i rest IH]; intros ilo ihi r1 r2 hr.
  - unfold agree; cbn; repeat split; left; eauto.
  - cbn [pixel_loop].
    destruct (spec_wobs.[i]) as [w|e]; [apply agree_lift | apply agree_fail].
    destruct (dw.[i]) as [d|e]; [apply agree_lift | apply agree_fail].
    set (lo1 := climb _ _ ilo).
    destruct (Z.eqb_spec lo1 0) as [h0|h0]; [apply agree_tell, IH, hr|].
    apply agree_tell; cbv beta.
    set (hi1 := climb _ _ ihi).
    destruct (Z.geb_spec (lo1 - 1) hi1) as [hge|hlt].
    + apply agree_tell.
      destruct (@getitem_lin f1 f2 hi1 same_length)
        as [(u & v & -> & -> & ->)|(e & -> & -> & ->)]; [apply agree_lift | apply agree_fail].
      destruct (@setitem_lin r1 r2 i u v hr)
        as [(r1' & r2' & -> & -> & -> & hr')|(e & -> & -> & ->)];
        [apply agree_lift, IH, hr' | apply agree_fail].
    + destruct (Z.eqb_spec (lo1 - 1) (Np.len templ_wobs - 1)) as [hx|hx].
      * apply agree_tell; unfold agree; cbn; repeat split; left; eauto.
      * apply agree_tell.
        destruct (@slice_lin f1 f2 (Some (lo1 - 1)%Z) (Some hi1) same_length) as (-> & hs).
        set (g := map _ (Np.slice templ_wobs _ _)).
        destruct (@broadcast2_lin _ _ g hs)
          as [(g1 & g2 & -> & -> & -> & hg)|(e & -> & -> & ->)];
          [apply agree_lift | apply agree_fail].
        rewrite (@trapz_lin g1 g2 _ hg).
        destruct (@setitem_lin r1 r2 i (Np.trapz g1 (Np.slice templ_wobs (Some (lo1 - 1)%Z) (Some hi1)))
                    (Np.trapz g2 (Np.slice templ_wobs (Some (lo1 - 1)%Z) (Some hi1))) hr)
          as [(r1' & r2' & -> & -> & -> & hr')|(e & -> & -> & ->)];
          [apply agree_lift, IH, hr' | apply agree_fail].
Qed.

End Loop.

End Linearity.

Section LinearityOfTheResampler.

Context {rt : Runtime}.

(** X7. The resampler is linear in the template flux: on flux arrays of one
    length, the run for [a * f1 + b * f2] passes the same program points as
    the runs for [f1] and [f2], fails where they fail, and otherwise returns
    [a * r1 + b * r2] for their results [r1], [r2] (source lines 93 and
    100-104 are the only uses of [templ_flux]). *)
Theorem resample_linear_in_flux (spec_wobs spec_R_fwhm templ_wobs f1 f2 : list R)
    (velocity_sigma nsig fill_value a b : R) :
  length f1 = length f2 ->
  resample_template_log spec_wobs spec_R_fwhm templ_wobs f1 velocity_sigma nsig fill_value
  = resample_template_log spec_wobs spec_R_fwhm templ_wobs (combination a b f1 f2)
      velocity_sigma nsig fill_value
  /\ resample_template_log spec_wobs spec_R_fwhm templ_wobs f2 velocity_sigma nsig fill_value
     = resample_template_log spec_wobs spec_R_fwhm templ_wobs (combination a b f1 f2)
         velocity_sigma nsig fill_value
  /\ ((exists r1 r2,
          resample_template_numba spec_wobs spec_R_fwhm templ_wobs f1
            velocity_sigma nsig fill_value = Ok r1
          /\ resample_template_numba spec_wobs spec_R_fwhm templ_wobs f2
               velocity_sigma nsig fill_value = Ok r2
          /\ resample_template_numba spec_wobs spec_R_fwhm templ_wobs (combination a b f1 f2)
               velocity_sigma nsig fill_value = Ok (combination a b r1 r2))
      \/ (exists e,
            resample_template_numba spec_wobs spec_R_fwhm templ_wobs f1
              velocity_sigma nsig fill_value = Err e
            /\ resample_template_numba spec_wobs spec_R_fwhm templ_wobs f2
                 velocity_sigma nsig fill_value = Err e
            /\ resample_template_numba spec_wobs spec_R_fwhm templ_wobs (combination a b f1 f2)
                 velocity_sigma nsig fill_value = Err e)).
Proof.
  intros hlen.
  unfold resample_template_log, resample_template_numba, resample_template_run.
  destruct (resample_dw spec_wobs spec_R_fwhm velocity_sigma) as [dw|e].
  - rewrite !bind_lift_ok, !initial_resamp_zero.
    pose proof (@pixel_loop_lin a b rt spec_wobs templ_wobs dw nsig f1 f2 hlen
                  (Np.range 0 (Np.len spec_wobs)) 0%Z 1%Z
                  (Np.zeros_like spec_wobs) (Np.zeros_like spec_wobs) eq_refl) as run.
    rewrite lin_zeros in run; exact run.
  - rewrite !bind_lift_err; cbn [fst snd]; repeat split; right; eauto.
Qed.

End LinearityOfTheResampler.

Lemma resample_linear_in_flux_witness :
  resample_template_log (rt := ReferenceRuntime.reals)
    [10; 11] [1; 1] [1; 2; 3] [1; 1; 1] 100 1 0
  = resample_template_log (rt := ReferenceRuntime.reals)
      [10; 11] [1; 1] [1; 2; 3] (combination 2 3 [1; 1; 1] [0; 1; 2]) 100 1 0
  /\ resample_template_log (rt := ReferenceRuntime.reals)
       [10; 11] [1; 1] [1; 2; 3] [0; 1; 2] 100 1 0
     = resample_template_log (rt := ReferenceRuntime.reals)
         [10; 11] [1; 1] [1; 2; 3] (combination 2 3 [1; 1; 1] [0; 1; 2]) 100 1 0
  /\ ((exists r1 r2,
          resample_template_numba (rt := ReferenceRuntime.reals)
            [10; 11] [1; 1] [1; 2; 3] [1; 1; 1] 100 1 0 = Ok r1
          /\ resample_template_numba (rt := ReferenceRuntime.reals)
               [10; 11] [1; 1] [1; 2; 3] [0; 1; 2] 100 1 0 = Ok r2
          /\ resample_template_numba (rt := ReferenceRuntime.reals)
               [10; 11] [1; 1] [1; 2; 3] (combination 2 3 [1; 1; 1] [0; 1; 2]) 100 1 0
             = Ok (combination 2 3 r1 r2))
      \/ (exists e,
            resample_template_numba (rt := ReferenceRuntime.reals)
              [10; 11] [1; 1] [1; 2; 3] [1; 1; 1] 100 1 0 = Err e
            /\ resample_template_numba (rt := ReferenceRuntime.reals)
                 [10; 11] [1; 1] [1; 2; 3] [0; 1; 2] 100 1 0 = Err e
            /\ resample_template_numba (rt := ReferenceRuntime.reals)
                 [10; 11] [1; 1] [1; 2; 3] (combination 2 3 [1; 1; 1] [0; 1; 2]) 100 1 0
               = Err e)).
Proof.
  apply (resample_linear_in_flux (rt := ReferenceRuntime.reals)
           [10; 11] [1; 1] [1; 2; 3] [1; 1; 1] [0; 1; 2] 100 1 0 2 3).
  reflexivity.
Defined.

Lemma resample_length_witness :
  resample_template_numba (rt := ReferenceRuntime.reals) [1] [1000] [2; 3] [1; 1] 100 5 5
  = Ok [0]
  /\ length [0] = length [1].
Proof.
  assert (run : resample_template_numba (rt := ReferenceRuntime.reals)
                  [1] [1000] [2; 3] [1; 1] 100 5 5 = Ok [0])
    by (unfold resample_template_numba; rewrite skipped_pixel_run; reflexivity).
  split; [exact run|].
  exact (resample_length (rt := ReferenceRuntime.reals)
           [1] [1000] [2; 3] [1; 1] 100 5 5 run).
Defined.

Lemma resample_skipped_is_zero_witness :
  resample_template_numba (rt := ReferenceRuntime.reals) [1] [1000] [2; 3] [1; 1] 100 5 5
  = Ok [0]
  /\ In (Skipped (Z.of_nat 0))
        (resample_template_log (rt := ReferenceRuntime.reals)
           [1] [1000] [2; 3] [1; 1] 100 5 5)
  /\ nth 0 [0] 0 = 0.
Proof.
  assert (run : resample_template_numba (rt := ReferenceRuntime.reals)
                  [1] [1000] [2; 3] [1; 1] 100 5 5 = Ok [0])
    by (unfold resample_template_numba; rewrite skipped_pixel_run; reflexivity).
  assert (log : In (Skipped (Z.of_nat 0))
                   (resample_template_log (rt := ReferenceRuntime.reals)
                      [1] [1000] [2; 3] [1; 1] 100 5 5))
    by (unfold resample_template_log; rewrite skipped_pixel_run; left; reflexivity).
  split; [exact run|]; split; [exact log|].
  exact (resample_skipped_is_zero (rt := ReferenceRuntime.reals)
           [1] [1000] [2; 3] [1; 1] 100 5 5 0 run log).
Defined.

Lemma resample_short_template_witness :
  resample_template_run (rt := ReferenceRuntime.reals) [1; 2] [1000; 1000] [1.5] [7] 100 5 3
  = (map Skipped (Np.range 0 (Np.len [1; 2])), Ok (Np.zeros_like [1; 2])).
Proof.
  apply (resample_short_template (rt := ReferenceRuntime.reals)
           [1; 2] [1000; 1000] [1.5] [7] 100 5 3); simpl; lia.
Defined.

(** ** Further properties of the pixel-integrated Gaussian *)

Section PixelIntegratedGaussianMore.

Context {rt : Runtime}.

Lemma same_entries (l l' : list R) :
  length l = length l' ->
  (forall n, (n < length l)%nat -> nth n l 0 = nth n l' 0) ->
  l = l'.
Proof. intros hl hn; apply (nth_ext l l' 0 0); assumption. Qed.

Lemma pixel_integrated_gaussian_factor (x : list R) (mu sigma : Np.arg)
    (dx : option Np.arg) (normalization : R) (w : list R) :
  conforms mu x -> conforms sigma x ->
  pixel_widths x dx = Ok w -> length w = length x -> (0 < length x)%nat ->
  exists unit,
    pixel_integrated_gaussian_numba x mu sigma dx 1 = Ok unit
    /\ length unit = length x
    /\ pixel_integrated_gaussian_numba x mu sigma dx normalization
       = Ok (map (fun u => u * normalization) unit).
Proof.
  intros hmu hsigma hw lw hpos.
  destruct (pixel_integrated_gaussian_run x mu sigma dx 1 hmu hsigma hw lw hpos)
    as (unit & hunit & lunit & nunit).
  destruct (pixel_integrated_gaussian_run x mu sigma dx normalization hmu hsigma hw lw hpos)
    as (samp & hsamp & lsamp & nsamp).
  exists unit; split; [exact hunit|]; split; [exact lunit|].
  rewrite hsamp; f_equal.
  apply same_entries; [rewrite length_map; congruence|].
  intros n hn; rewrite lsamp in hn.
  rewrite NpFacts.nth_map0 by lia.
  rewrite nsamp, nunit by assumption.
  unfold integrated_gaussian; lra.
Qed.

(** X8. [normalization] is a plain factor: the result is the result for
    [normalization = 1] times it (source lines 208 and 214). *)
Theorem pixel_integrated_gaussian_scales (x : list R) (mu sigma : Np.arg)
    (dx : option Np.arg) (normalization : R) (w : list R) :
  conforms mu x -> conforms sigma x ->
  pixel_widths x dx = Ok w -> length w = length x -> (0 < length x)%nat ->
  exists unit,
    pixel_integrated_gaussian_numba x mu sigma dx 1 = Ok unit
    /\ length unit = length x
    /\ pixel_integrated_gaussian_numba x mu sigma dx normalization
       = Ok (map (fun u => u * normalization) unit).
Proof. exact (@pixel_integrated_gaussian_factor x mu sigma dx normalization w). Qed.

(** X9. The statements for [i = 0] (source lines 204-208) stand before the
    loop and run whatever [N] is, so on an empty [x] the call subscripts
    outside the array: [x[1]] in the width derivation (source line 198) when
    [dx] is omitted, [x[0]] (source line 204) when it is given.  As Python
    this raises [IndexError]; compiled without bounds checks the accesses
    are made unchecked. *)
Theorem pixel_integrated_gaussian_empty (mu sigma : Np.arg) (normalization : R) :
  conforms mu [] -> conforms sigma [] ->
  pixel_integrated_gaussian_numba [] mu sigma None normalization = Err (IndexError 1 0)
  /\ (forall d,
         conforms d [] ->
         pixel_integrated_gaussian_numba [] mu sigma (Some d) normalization
         = Err (IndexError 0 0)).
Proof.
  intros hmu hsigma.
  assert (empty : forall a, conforms a [] -> Np.times a [] = Ok []).
  { intros [r|l]; simpl; [reflexivity|].
    destruct l; [reflexivity | discriminate]. }
  unfold pixel_integrated_gaussian_numba.
  change (Np.ones_like []) with (@nil R).
  rewrite (empty (Np.scale (sqrt 2) sigma)) by (apply conforms_scale; assumption).
  rewrite (empty mu hmu); cbn [bind pixel_widths].
  split; [reflexivity|].
  intros d hd; change (Np.ones_like []) with (@nil R).
  rewrite (empty d hd); reflexivity.
Qed.

Lemma nth_shift (x : list R) (t : R) (k : nat) :
  (k < length x)%nat -> nth k (map (fun u => u + t) x) 0 = nth k x 0 + t.
Proof. intros hk; apply (NpFacts.nth_map0 (fun u => u + t)); assumption. Qed.

Lemma pixel_widths_shift (x : list R) (dx : option Np.arg) (t : R) (w : list R) :
  pixel_widths x dx = Ok w -> pixel_widths (map (fun u => u + t) x) dx = Ok w.
Proof.
  destruct dx as [d|]; cbn [pixel_widths].
  - unfold Np.ones_like; rewrite map_map; trivial.
  - intros hw.
    assert (hN : (2 <= length x)%nat).
    { destruct (Nat.lt_ge_cases (length x) 2) as [hlt|]; [|assumption].
      rewrite gradient_widths_short in hw by assumption; discriminate. }
    destruct (gradient_widths_values x hN) as (w0 & hw0 & lw0 & first & last & mid).
    cbn [pixel_widths] in hw0; rewrite hw in hw0; injection hw0 as <-.
    assert (hN' : (2 <= length (map (fun u => (u + t)%R) x))%nat)
      by (rewrite length_map; exact hN).
    destruct (gradient_widths_values _ hN') as (w' & hw' & lw' & first' & last' & mid').
    cbn [pixel_widths] in hw'; rewrite hw'; f_equal.
    rewrite length_map in *.
    apply same_entries; [congruence|].
    intros n hn; rewrite lw' in hn.
    destruct (Nat.eq_dec n 0) as [->|hn0].
    + rewrite first', first, !nth_shift by lia; lra.
    + destruct (Nat.eq_dec n (length x - 1)) as [->|hnl].
      * rewrite last', last, !nth_shift by lia; lra.
      * rewrite mid', mid, !nth_shift by lia; lra.
Qed.

(** X10. Moving the grid and the centre by the same amount changes nothing
    (source lines 197-199 and 204: only differences of [x] and [x - mu]
    are used). *)
Theorem pixel_integrated_gaussian_shift (x : list R) (mu : R) (sigma : Np.arg)
    (dx : option Np.arg) (normalization t : R) (w : list R) :
  conforms sigma x ->
  pixel_widths x dx = Ok w -> length w = length x -> (0 < length x)%nat ->
  pixel_integrated_gaussian_numba (map (fun u => u + t) x) (Np.Scalar (mu + t)) sigma dx
    normalization
  = pixel_integrated_gaussian_numba x (Np.Scalar mu) sigma dx normalization.
Proof.
  intros hsigma hw lw hpos.
  destruct (pixel_integrated_gaussian_run x (Np.Scalar mu) sigma dx normalization
              I hsigma hw lw hpos) as (samp & hsamp & lsamp & nsamp).
  assert (hsigma' : conforms sigma (map (fun u => u + t) x))
    by (destruct sigma; simpl in *; [trivial | rewrite length_map; assumption]).
  destruct (pixel_integrated_gaussian_run (map (fun u => u + t) x) (Np.Scalar (mu + t))
              sigma dx normalization I hsigma' (pixel_widths_shift x dx t hw))
    as (samp' & hsamp' & lsamp' & nsamp'); try (rewrite length_map; assumption).
  rewrite hsamp, hsamp'; f_equal.
  rewrite length_map in *.
  apply same_entries; [congruence|].
  intros n hn; rewrite lsamp' in hn.
  rewrite nsamp', nsamp, nth_shift by assumption.
  unfold integrated_gaussian; cbn [entry].
  replace (nth n x 0 + t - (mu + t)) with (nth n x 0 - mu) by lra.
  reflexivity.
Qed.

(** X11. On a strictly increasing grid of at least two samples every derived
    pixel width is positive, so no sample divides by zero (source lines
    196-199). *)
Theorem gradient_widths_positive (x : list R) :
  (2 <= length x)%nat -> increasing x ->
  exists w,
    pixel_widths x None = Ok w
    /\ length w = length x
    /\ forall i, (i < length x)%nat -> 0 < nth i w 0.
Proof.
  intros hN hinc.
  destruct (gradient_widths_values x hN) as (w & hw & lw & first & last & mid).
  exists w; split; [exact hw|]; split; [exact lw|].
  intros i hi.
  destruct (Nat.eq_dec i 0) as [->|hi0].
  - rewrite first; pose proof (hinc 0%nat ltac:(lia)); lra.
  - destruct (Nat.eq_dec i (length x - 1)) as [->|hil].
    + rewrite last; pose proof (hinc (length x - 2)%nat ltac:(lia)) as h.
      replace (S (length x - 2)) with (length x - 1)%nat in h by lia; lra.
    + rewrite mid by lia.
      pose proof (hinc (i - 1)%nat ltac:(lia)) as h1.
      pose proof (hinc i ltac:(lia)) as h2.
      replace (S (i - 1)) with i in h1 by lia.
      replace (i + 1)%nat with (S i) by lia; lra.
Qed.

(** X12. For a grid of at least two samples [sample_gaussian_line_numba] returns
    an array as long as the grid, and [line_flux] is a plain factor of it
    (source lines 151-153). *)
Theorem sample_gaussian_line_flux (spec_wobs spec_R_fwhm : list R)
    (line_um velocity_sigma : R) :
  (2 <= length spec_wobs)%nat ->
  exists unit,
    length unit = length spec_wobs
    /\ forall line_flux,
         sample_gaussian_line_numba spec_wobs spec_R_fwhm line_um line_flux velocity_sigma
         = Ok (map (fun u => u * line_flux) unit).
Proof.
  intros hN.
  destruct (gradient_widths_values spec_wobs hN) as (w & hw & lw & _).
  unfold sample_gaussian_line_numba.
  set (dw := line_dw spec_wobs spec_R_fwhm line_um velocity_sigma).
  destruct (pixel_integrated_gaussian_factor spec_wobs (Np.Scalar line_um) (Np.Scalar dw)
              None 1 I I hw lw) as (unit & hunit & lunit & _); [lia|].
  exists unit; split; [exact lunit|].
  intros line_flux.
  destruct (pixel_integrated_gaussian_factor spec_wobs (Np.Scalar line_um) (Np.Scalar dw)
              None line_flux I I hw lw) as (unit' & hunit' & _ & hflux); [lia|].
  rewrite hunit in hunit'; injection hunit' as <-; exact hflux.
Qed.

End PixelIntegratedGaussianMore.

Lemma pixel_integrated_gaussian_scales_witness :
  exists unit,
    pixel_integrated_gaussian_numba (rt := ReferenceRuntime.reals) [0; 1; 2]
      (Np.Scalar 1) (Np.Scalar 0.5) (Some (Np.Scalar 1)) 1 = Ok unit
    /\ length unit = 3%nat
    /\ pixel_integrated_gaussian_numba (rt := ReferenceRuntime.reals) [0; 1; 2]
         (Np.Scalar 1) (Np.Scalar 0.5) (Some (Np.Scalar 1)) 7
       = Ok (map (fun u => u * 7) unit).
Proof.
  apply (pixel_integrated_gaussian_scales (rt := ReferenceRuntime.reals) [0; 1; 2]
           (Np.Scalar 1) (Np.Scalar 0.5) (Some (Np.Scalar 1)) 7
           (w := [1 * 1; 1 * 1; 1 * 1])); simpl; auto.
Defined.

Lemma pixel_integrated_gaussian_empty_witness :
  pixel_integrated_gaussian_numba (rt := ReferenceRuntime.reals) []
    (Np.Scalar 1) (Np.Scalar 0.5) None 1 = Err (IndexError 1 0)
  /\ (forall d,
         conforms d [] ->
         pixel_integrated_gaussian_numba (rt := ReferenceRuntime.reals) []
           (Np.Scalar 1) (Np.Scalar 0.5) (Some d) 1
         = Err (IndexError 0 0)).
Proof.
  apply (pixel_integrated_gaussian_empty (rt := ReferenceRuntime.reals)
           (Np.Scalar 1) (Np.Scalar 0.5) 1); exact I.
Defined.

Lemma pixel_integrated_gaussian_shift_witness :
  pixel_integrated_gaussian_numba (rt := ReferenceRuntime.reals)
    (map (fun u => u + 10) [0; 1; 2]) (Np.Scalar (1 + 10)) (Np.Scalar 0.5)
    (Some (Np.Scalar 1)) 1
  = pixel_integrated_gaussian_numba (rt := ReferenceRuntime.reals) [0; 1; 2]
      (Np.Scalar 1) (Np.Scalar 0.5) (Some (Np.Scalar 1)) 1.
Proof.
  apply (pixel_integrated_gaussian_shift (rt := ReferenceRuntime.reals) [0; 1; 2] 1
           (Np.Scalar 0.5) (Some (Np.Scalar 1)) 1 10 (w := [1 * 1; 1 * 1; 1 * 1]));
    simpl; auto.
Defined.

Lemma gradient_widths_positive_witness :
  exists w,
    pixel_widths [0; 1; 3] None = Ok w
    /\ length w = 3%nat
    /\ forall i, (i < 3)%nat -> 0 < nth i w 0.
Proof.
  apply (gradient_widths_positive (x := [0; 1; 3])); [simpl; lia|].
  intros [|[|i]] hi; simpl in *; try lra; lia.
Defined.

Lemma sample_gaussian_line_flux_witness :
  exists unit,
    length unit = 2%nat
    /\ forall line_flux,
         sample_gaussian_line_numba (rt := ReferenceRuntime.reals)
           [1; 2] [1000; 2000] 1.5 line_flux 100
         = Ok (map (fun u => u * line_flux) unit).
Proof.
  apply (sample_gaussian_line_flux (rt := ReferenceRuntime.reals) [1; 2] [1000; 2000] 1.5 100).
  simpl; lia.
Defined.

(** ** Further properties of the IGM transmission *)

Section IgmMore.

Lemma compute_igm_map (z : R) (wobs : list R) (scale_tau : R) :
  Igm.compute_igm z wobs scale_tau
  = map (fun wi => exp (- scale_tau * Igm.accumulate z wi 0)) wobs.
Proof.
  unfold Igm.compute_igm; rewrite IgmFacts.tau_loop_map, map_map; reflexivity.
Qed.

(** X13. The transmission is computed wavelength by wavelength: the result is
    as long as [wobs], and the result for two arrays laid end to end is the
    two results laid end to end (source lines 358-452: turn [i] of the loop
    reads and writes [tau[i]] only). *)
Theorem compute_igm_elementwise (z : R) (u v : list R) (scale_tau : R) :
  length (Igm.compute_igm z u scale_tau) = length u
  /\ Igm.compute_igm z (u ++ v) scale_tau
     = Igm.compute_igm z u scale_tau ++ Igm.compute_igm z v scale_tau.
Proof.
  rewrite !compute_igm_map; split; [apply length_map | apply map_app].
Qed.

Lemma ALAM_below_alpha : Forall (fun lsj => 0 < lsj <= 1215.670) Igm.ALAM.
Proof. IgmFacts.table; repeat (constructor; [lra|]); constructor. Qed.

Lemma total_zero (A : Type) (f : A -> R) (l : list A) :
  Forall (fun x => f x = 0) l -> total (map f l) = 0.
Proof. induction 1 as [|x l hx hl IH]; simpl; [reflexivity | fold (total (map f l)); lra]. Qed.

(** Redward of Lyman alpha nothing is absorbed. *)
Lemma accumulate_redward (z wi : R) :
  -1 <= z -> 1215.670 * (1 + z) <= wi -> Igm.accumulate z wi 0 = 0.
Proof.
  intros hz hwi; unfold Igm.accumulate.
  destruct (wi >? 1300.0 * (1 + z)); [reflexivity|].
  unfold Igm.lyman_continuum, Igm.lamL.
  rewrite NpFacts.ltb_false by nra.
  unfold Igm.lyman_series; rewrite IgmFacts.fold_series, Rplus_0_l.
  apply total_zero.
  eapply Forall_impl; [|exact (rows_of_ALAM 0 ALAM_below_alpha)].
  intros row hrow; cbv beta in hrow.
  unfold forest_term, damped_term.
  rewrite NpFacts.ltb_false by nra; lra.
Qed.


(** X16. For [z >= 0], from the redshifted Lyman limit up to [1215 (1 + z)],
    just below the redshifted Lyman-alpha line, the Lyman-alpha row of the
    table alone contributes an optical depth of at least 0.009 and no
    continuum term is subtracted (source lines 367-386): for
    [scale_tau > 0] the transmission is at most [exp(-0.009 scale_tau)],
    and at most 0.992 for [scale_tau >= 1]. *)
Theorem compute_igm_absorbs_below_lyman_alpha (z : R) (wobs : list R) (i : nat) :
  0 <= z -> (i < length wobs)%nat ->
  911.8 * (1 + z) <= nth i wobs 0 <= 1215 * (1 + z) ->
  0.009 <= nth i (Igm.tau_loop z wobs (Np.zeros_like wobs)) 0
  /\ (forall scale_tau,
         0 < scale_tau ->
         0 <= nth i (Igm.compute_igm z wobs scale_tau) 0 <= exp (- 0.009 * scale_tau))
  /\ (forall scale_tau,
         1 <= scale_tau -> nth i (Igm.compute_igm z wobs scale_tau) 0 <= 0.992).
Proof.
  intros hz hi [hlo hhi].
  rewrite IgmFacts.tau_loop_nth by assumption.
  assert (htau : 0.009 <= Igm.accumulate z (nth i wobs 0) 0).
  { unfold Igm.accumulate, Np.gtb; rewrite NpFacts.ltb_false by lra.
    unfold Igm.lyman_continuum, Igm.lamL; rewrite NpFacts.ltb_false by assumption.
    apply series_absorbs; lra. }
  split; [exact htau|]; split.
  - intros s hs; rewrite IgmFacts.compute_igm_nth by assumption.
    split; [left; apply exp_pos | apply exp_le; nra].
  - intros s hs; rewrite IgmFacts.compute_igm_nth by assumption.
    apply Rle_trans with (exp (- 0.009)); [apply exp_le; nra|].
    pose proof (exp_ineq1_le 0.009) as hup.
    replace (exp (- 0.009)) with (/ exp 0.009) by (rewrite <- exp_Ropp; f_equal; lra).
    apply Rle_trans with (/ (1 + 0.009)); [apply Rinv_le_contravar; lra | lra].
Qed.

End IgmMore.


Lemma compute_igm_absorbs_below_lyman_alpha_witness :
  0.009 <= nth 0 (Igm.tau_loop 4.2341 [6300.0] (Np.zeros_like [6300.0])) 0
  /\ (forall scale_tau,
         0 < scale_tau ->
         0 <= nth 0 (Igm.compute_igm 4.2341 [6300.0] scale_tau) 0 <= exp (- 0.009 * scale_tau))
  /\ (forall scale_tau,
         1 <= scale_tau -> nth 0 (Igm.compute_igm 4.2341 [6300.0] scale_tau) 0 <= 0.992).
Proof.
  apply (@compute_igm_absorbs_below_lyman_alpha 4.2341 [6300.0] 0%nat);
    [lra | simpl; lia | simpl; lra].
Defined.
